(** * LULC prediction script: transition encoding, feature bands, split and
      area aggregation

    A shallow embedding of [LULC_Prediction_2033_code.js].  The script is a
    straight-line Earth Engine program.  What it computes itself (the nested
    loop that builds the change map and its dictionary, the feature bands,
    the threshold split, the relabelling of the grouped areas) is embedded
    as functions; the platform operators it calls are embedded pixel by
    pixel with the platform's mask rules; the opaque services (stratified
    sampling, the random column, the random forest) are section variables. *)

From Stdlib Require Import ZArith QArith List Lia.
From stdpp Require Import gmap strings list fin_maps pretty.

Local Open Scope Z_scope.

(** ** Images, features and platform results *)

(** An image is a function from pixel coordinates to pixels; a pixel is
    either masked ([None]) or holds a number.  Class rasters and every band
    the script derives from them hold integers. *)
Definition cell : Type := (Z * Z)%type.
Definition pixel : Type := option Z.
Definition Image : Type := cell -> pixel.

(** A multi-band image, as [ee.Image([...])] builds it from renamed bands. *)
Definition Bands : Type := list (string * Image).

(** A feature of a sampled collection: its numeric properties by name.
    Floating-point property values are represented by their exact rational
    value, which order comparisons respect. *)
Abbreviation Feature := (gmap string Q).

(** A deferred platform computation delivers a value or raises an error. *)
Inductive result (A : Type) : Type :=
| Ok (a : A)
| Err.
Arguments Ok {A} a.
Arguments Err {A}.

Definition bind {A B} (r : result A) (f : A -> result B) : result B :=
  match r with
  | Ok a => f a
  | Err => Err
  end.

Notation "x <-- r ;; k" := (bind r (fun x => k))
  (at level 100, r at next level, right associativity).

(** Mapping a fallible function over a list: the first error aborts. *)
Fixpoint mapR {A B} (f : A -> result B) (l : list A) : result (list B) :=
  match l with
  | [] => Ok []
  | a :: l' => b <-- f a ;; bs <-- mapR f l' ;; Ok (b :: bs)
  end.

Module ee.

(** [ee.Image(c)]: the constant image, unmasked everywhere. *)
Definition constant (c : Z) : Image := fun _ => Some c.

(** Pixelwise binary operators: the result is masked where either input
    is masked. *)
Definition binary (f : Z -> Z -> Z) (a b : Image) : Image :=
  fun p =>
    match a p, b p with
    | Some x, Some y => Some (f x y)
    | _, _ => None
    end.

Definition eq : Image -> Image -> Image :=
  binary (fun x y => if x =? y then 1 else 0).

Definition neq : Image -> Image -> Image :=
  binary (fun x y => if x =? y then 0 else 1).

Definition and : Image -> Image -> Image :=
  binary (fun x y => if (negb (x =? 0) && negb (y =? 0))%bool then 1 else 0).

Definition multiply : Image -> Image -> Image := binary Z.mul.

(** [input.where(test, value)]: where [test] is nonzero the pixel of
    [value] replaces the pixel of [input]; where [test] or [value] is
    masked the input pixel is kept; a masked input pixel stays masked. *)
Definition where_ (input test value : Image) : Image :=
  fun p =>
    match input p with
    | None => None
    | Some i =>
        match test p, value p with
        | Some t, Some v => if t =? 0 then Some i else Some v
        | _, _ => Some i
        end
    end.

(** [selfMask]: the image is its own mask, so a pixel holding zero becomes
    masked and a pixel holding another number is kept. *)
Definition selfMask (a : Image) : Image :=
  fun p =>
    match a p with
    | Some v => if v =? 0 then None else Some v
    | None => None
    end.

(** [image.clip(region)]: pixels outside the region are masked. *)
Definition clip (a : Image) (region : list cell) : Image :=
  fun p => if bool_decide (p ∈ region) then a p else None.

(** [ee.Dictionary.fromLists(keys, values)]: the entries are entered in
    list order. *)
Definition Dictionary_fromLists (keys vals : list string) : gmap string string :=
  fold_left (fun m kv => <[fst kv := snd kv]> m) (combine keys vals) ∅.

(** [ee.List(l).get(index)]: a negative index counts backwards from the
    end of the list; an index outside [-n .. n-1] is an error. *)
Definition List_get {A} (l : list A) (index : Z) : result A :=
  let n := Z.of_nat (length l) in
  let pos := if index <? 0 then n + index else index in
  if ((0 <=? pos) && (pos <? n))%bool
  then match l !! Z.to_nat pos with
       | Some a => Ok a
       | None => Err
       end
  else Err.

(** [ee.Filter.lte(name, t)] and [ee.Filter.gt(name, t)] on one feature;
    a feature without the property passes neither. *)
Definition Filter_lte (name : string) (t : Q) (f : Feature) : bool :=
  match f !! name with
  | Some r => (Qnum r * QDen t <=? Qnum t * QDen r)
  | None => false
  end.

Definition Filter_gt (name : string) (t : Q) (f : Feature) : bool :=
  match f !! name with
  | Some r => (Qnum t * QDen r <? Qnum r * QDen t)
  | None => false
  end.

(** The grouped sum reducer of [reduceRegion]: over the pixels of the
    region where both bands are unmasked, the first band is summed per
    value of the group band.  The order in which the platform lists the
    groups is its own. *)
Definition groupSum (weight : cell -> option Q) (group : Image)
    (region : list cell) : gmap Z Q :=
  fold_left
    (fun m p =>
       match weight p, group p with
       | Some a, Some c => <[c := (default 0%Q (m !! c) + a)%Q]> m
       | _, _ => m
       end)
    region ∅.

End ee.

(** The band of a multi-band image with a given name. *)
Fixpoint bandOf (name : string) (bands : Bands) : option Image :=
  match bands with
  | [] => None
  | (n, img) :: rest => if String.eqb n name then Some img else bandOf name rest
  end.

(** ** The change map loop (lines 39-52) *)

(** The three accumulators the nested loop updates. *)
Record changeState : Type := mkChange {
  changeValues : list Z;
  changeNames : list string;
  changeMap : Image
}.

(** Line 44: [value1 * 1e2 + value2].  The script computes in doubles; the
    integer result below is what it computes as long as the result stays
    within 2^53 in absolute value (see [exactCodes]). *)
Definition changeValue (value1 value2 : Z) : Z := value1 * 100 + value2.

(** A JavaScript array read that is concatenated to a string: a position
    past the end reads [undefined], which prints as such. *)
Definition jsString (o : option string) : string :=
  match o with
  | Some s => s
  | None => "undefined"%string
  end.

(** Line 47. *)
Definition changeName (names : list string) (index1 index2 : nat) : string :=
  (jsString (names !! index1) +:+ " -> " +:+ jsString (names !! index2))%string.

(** The elements of an array with their positions, as [Array.map] passes
    them to its callback. *)
Definition entries {A} (l : list A) : list (A * nat) :=
  combine l (seq 0 (length l)).

(** Body of the inner callback (lines 44-50); [from] and [to] are
    [lulcList[0].image] and [lulcList[1].image]. *)
Definition changeStep (names : list string) (from to : Image)
    (value1 : Z) (index1 : nat) (st : changeState) (e2 : Z * nat) : changeState :=
  let '(value2, index2) := e2 in
  let cv := changeValue value1 value2 in
  {| changeValues := changeValues st ++ [cv];
     changeNames := changeNames st ++ [changeName names index1 index2];
     changeMap :=
       ee.where_ (changeMap st)
         (ee.and (ee.eq from (ee.constant value1)) (ee.eq to (ee.constant value2)))
         (ee.constant cv) |}.

(** Lines 39-52: both loops run over [values]. *)
Definition changeLoop (values : list Z) (names : list string)
    (from to : Image) : changeState :=
  fold_left
    (fun st e1 =>
       fold_left (changeStep names from to (fst e1) (snd e1)) (entries values) st)
    (entries values)
    {| changeValues := []; changeNames := []; changeMap := ee.constant 0 |}.

(** [String(value)] on an integer: its decimal numeral, which is what
    JavaScript prints for integers below 1e21 in absolute value. *)
Definition String_ (value : Z) : string := pretty value.

(** ** Area records (lines 129-135) *)

Module AreaFeature.
(** The properties of one feature of [lulcAreafeatures]. *)
Record t : Type := mk {
  class : Z;
  area : Q;
  year : Z;
  LULC : string
}.
End AreaFeature.

(** Line 131: the name at position [class - 1]. *)
Definition label (names : list string) (class : Z) : result string :=
  ee.List_get names (class - 1).

(** One element of [lulcList]. *)
Record lulcEntry : Type := mkEntry {
  year : Z;
  image : Image
}.

(** ** The script *)

Section Script.

(** Land cover parameters (lines 2-8). *)
Variable values : list Z.
Variable names : list string.

(** The two classified assets (lines 21-22) and the elevation image. *)
Variables lulc2014 lulc2024 srtm : Image.

(** The pixels of the region of interest at the nominal scale, and the
    area of each pixel in square metres ([ee.Image.pixelArea()]). *)
Variable roi : list cell.
Variable pixelArea : cell -> Q.

(** Opaque services: the stratified sampler, the random number attached to
    the i-th sampled feature, and the trained random forest applied to a
    feature image. *)
Variable stratifiedSample : Bands -> nat -> string -> Z -> list cell -> list Feature.
Variable random : nat -> Q.
Variable smileRandomForest :
  nat -> list Feature -> string -> list string -> Bands -> Image.

(** Lines 28-31. *)
Definition lulcList0 : list lulcEntry :=
  [ {| year := 2014; image := lulc2014 |};
    {| year := 2024; image := lulc2024 |} ].

(** Lines 39-52, on [lulcList[0].image] and [lulcList[1].image]. *)
Definition loop : changeState := changeLoop values names lulc2014 lulc2024.

(** Line 55: the variable [changeMap] is reassigned; every later use
    reads this value. *)
Definition changeMap' : Image := ee.selfMask (changeMap loop).

(** Line 59. *)
Definition changeDict : gmap string string :=
  ee.Dictionary_fromLists (map String_ (changeValues loop)) (changeNames loop).

(** Lines 63-69. *)
Definition variables : Bands :=
  [ ("start", lulc2014);
    ("end", lulc2024);
    ("transition", changeMap');
    ("elevation", ee.clip srtm roi);
    ("year", ee.multiply (ee.constant 2024) (ee.neq lulc2014 lulc2024)) ]%string.

Definition propNames : list string :=
  ["start"; "transition"; "elevation"; "year"]%string.

Definition predictName : string := "end"%string.

(** [randomColumn()]: every feature receives a property [random]. *)
Definition randomColumn (fc : list Feature) : list Feature :=
  imap (fun i f => <["random"%string := random i]> f) fc.

(** Lines 78-83. *)
Definition sample : list Feature :=
  randomColumn (stratifiedSample variables 3000 "transition"%string 10 roi).

(** The number the literal [0.8] denotes: the double nearest to 8/10. *)
Definition split : Q := 3602879701896397 # 4503599627370496.

(** Lines 86-87. *)
Definition train : list Feature := List.filter (ee.Filter_lte "random" split) sample.
Definition test : list Feature := List.filter (ee.Filter_gt "random" split) sample.

(** Lines 105-110. *)
Definition variables2025 : Bands :=
  [ ("start", lulc2024);
    ("transition", changeMap');
    ("elevation", ee.clip srtm roi);
    ("year", ee.multiply (ee.constant 2033) (ee.neq lulc2024 lulc2014)) ]%string.

(** Lines 94 and 113. *)
Definition lulc2033 : Image :=
  smileRandomForest 50 train predictName propNames variables2025.

(** Line 117: the forecast is pushed onto the list. *)
Definition lulcList : list lulcEntry :=
  lulcList0 ++ [ {| year := 2033; image := lulc2033 |} ].

(** The layers added to the map (lines 34-36, 56 and 114), by label. *)
Definition layers : Bands :=
  map (fun dict => ("LULC " +:+ String_ (year dict), image dict)%string) lulcList0
  ++ [ ("Land cover change map", changeMap');
       ("LULC 2033 Prediction", lulc2033) ]%string.

(** Line 121. *)
Definition imageArea : cell -> option Q :=
  fun p => Some (pixelArea p / 10000)%Q.

(** Lines 122-127: the groups of the grouped sum, as (class, area). *)
Definition reduceArea (dict : lulcEntry) : list (Z * Q) :=
  map_to_list (ee.groupSum imageArea (image dict) roi).

(** Lines 129-135, for one group. *)
Definition feature (dict : lulcEntry) (dictionary : Z * Q) : result AreaFeature.t :=
  l <-- label names (fst dictionary) ;;
  Ok {| AreaFeature.class := fst dictionary;
        AreaFeature.area := snd dictionary;
        AreaFeature.year := year dict;
        AreaFeature.LULC := l |}.

Definition features (dict : lulcEntry) : result (list AreaFeature.t) :=
  mapR (feature dict) (reduceArea dict).

(** Lines 120-138. *)
Definition lulcAreafeatures : result (list AreaFeature.t) :=
  fs <-- mapR features lulcList ;; Ok (concat fs).

End Script.

(** ** Land cover parameters of the script (lines 2-8) *)

Definition values : list Z := [1; 2; 3; 4; 5; 6].

Definition names : list string :=
  ["Waterbody"; "Dense forest"; "Agriculture land"; "Range land";
   "Builtup"; "Barren land"]%string.

(** The code set [{1..K}] of a class catalog of size [K]. *)
Definition catalog (K : nat) : list Z := map Z.of_nat (seq 1 K).

(** Line 3. *)
Definition palette : list string :=
  ["013220"; "FFC0CB"; "FFFF00"; "0000FF"; "FF0000"; "008000"]%string.

(** ** The legend (lines 148-162) *)

(** One row of the legend panel: the colour of the swatch and the two
    labels.  A label built from an array position past the end
    ([undefined]) has no content. *)
Record legendRow : Type := mkRow {
  backgroundColor : string;
  valueLabel : option Z;
  nameLabel : option string
}.

(** The rows of the panel [legend] adds to the map, top to bottom: the
    callback of [palette.map] reads [values[index]] and [names[index]]. *)
Definition legend (palette : list string) (values : list Z) (names : list string)
    : list legendRow :=
  imap (fun index color =>
          {| backgroundColor := color;
             valueLabel := values !! index;
             nameLabel := names !! index |})
       palette.

(** ** Quantities the statements below refer to *)

(** Area in hectares of the cells of [region] that hold class [c], summed
    in region order. *)
Definition classArea (pixelArea : cell -> Q) (img : Image) (region : list cell)
    (c : Z) : Q :=
  fold_left Qplus
    (map (fun p => (pixelArea p / 10000)%Q)
         (List.filter (fun p => bool_decide (img p = Some c)) region))
    0%Q.

(** The record of one group when its class has a name. *)
Definition areaRecord (ns : list string) (y : Z) (g : Z * Q) : AreaFeature.t :=
  {| AreaFeature.class := fst g;
     AreaFeature.area := snd g;
     AreaFeature.year := y;
     AreaFeature.LULC := default ""%string (ns !! Z.to_nat (fst g - 1)) |}.

(** What the records of one epoch must be: one record per class held by
    some cell of the region, carrying the class, its area in hectares, the
    epoch's year and the catalog name of the class, that is the name listed
    at the position the class has among the catalog's codes. *)
Definition epochRecords (vs : list Z) (ns : list string) (pixelArea : cell -> Q)
    (region : list cell) (y : Z) (img : Image) (fs : list AreaFeature.t) : Prop :=
  NoDup (map AreaFeature.class fs) /\
  forall r, r ∈ fs <->
    exists c n i, (exists p, p ∈ region /\ img p = Some c) /\
                  vs !! i = Some c /\ ns !! i = Some n /\
                  r = {| AreaFeature.class := c;
                         AreaFeature.area := classArea pixelArea img region c;
                         AreaFeature.year := y;
                         AreaFeature.LULC := n |}.

(** The sum of a list of rationals. *)
Definition sumQ (l : list Q) : Q := fold_right Qplus 0%Q l.

(** Codes for which line 44 and [String] are exact: with both codes at
    most 2^46 in absolute value, value1 * 100 and value1 * 100 + value2
    stay below 2^53, where double arithmetic on integers does not round,
    and below 1e21, where [String] starts to use exponent notation. *)
Definition exactCodes (vs : list Z) : Prop :=
  forall v, v ∈ vs -> Z.abs v <= 2 ^ 46.

(** Whether the cell [p] holds [value1] in [from] and [value2] in [to]. *)
Definition hit (from to : Image) (p : cell) (value1 value2 : Z) : bool :=
  match from p, to p with
  | Some a, Some b => ((a =? value1) && (b =? value2))%bool
  | _, _ => false
  end.

(** What one iteration of the loop does to the number held at one cell. *)
Definition cellStep (from to : Image) (p : cell)
    (acc : Z) (pr : (Z * nat) * (Z * nat)) : Z :=
  if hit from to p (fst (fst pr)) (fst (snd pr))
  then changeValue (fst (fst pr)) (fst (snd pr))
  else acc.

(** One iteration of the loop, on an ordered pair of array entries. *)
Definition pairStep (names : list string) (from to : Image)
    (st : changeState) (pr : (Z * nat) * (Z * nat)) : changeState :=
  changeStep names from to (fst (fst pr)) (snd (fst pr)) st (snd pr).

(** ** Example inputs *)

(** A raster with class 1 in column 0, class 2 in column 1, class 7 (not in
    the catalog) in column 2 and no data elsewhere. *)
Definition exA : Image :=
  fun p =>
    if fst p =? 0 then Some 1
    else if fst p =? 1 then Some 2
    else if fst p =? 2 then Some 7
    else None.

(** A raster with class 1 in column 0, class 3 in column 1, class 7 in
    column 2 and no data elsewhere. *)
Definition exB : Image :=
  fun p =>
    if fst p =? 0 then Some 1
    else if fst p =? 1 then Some 3
    else if fst p =? 2 then Some 7
    else None.

(** A raster with class 2 in column 0 and no data elsewhere. *)
Definition exGap : Image :=
  fun p => if fst p =? 0 then Some 2 else None.

(** A raster of class 1 everywhere. *)
Definition exWater : Image := fun _ => Some 1.

Definition exRoi : list cell := [(0, 0); (1, 0); (0, 1); (1, 1)].

Definition exArea : cell -> Q := fun _ => 100%Q.

Definition exSample : Bands -> nat -> string -> Z -> list cell -> list Feature :=
  fun _ _ _ _ _ => [∅; ∅; ∅].

Definition exRandom : nat -> Q :=
  fun i => match i with
           | O => 1 # 2
           | S O => 9 # 10
           | _ => 3602879701896397 # 4503599627370496
           end.

(** A stand-in classifier that predicts the start class. *)
Definition exForest : nat -> list Feature -> string -> list string -> Bands -> Image :=
  fun _ _ _ _ bands =>
    match bandOf "start" bands with
    | Some img => img
    | None => fun _ => None
    end.

(** * Properties *)

(** ** The catalog *)

Example values_catalog : values = catalog 6.
Proof. reflexivity. Qed.

Lemma elem_of_catalog (K : nat) (v : Z) :
  v ∈ catalog K <-> 1 <= v <= Z.of_nat K.
Proof.
  unfold catalog. rewrite list_elem_of_fmap. split.
  - intros (n & -> & Hn). apply elem_of_seq in Hn. lia.
  - intros Hv. exists (Z.to_nat v). split; [lia|]. apply elem_of_seq. lia.
Qed.

Lemma length_catalog (K : nat) : length (catalog K) = K.
Proof. unfold catalog. rewrite length_map, length_seq. reflexivity. Qed.

Lemma lookup_catalog (K i : nat) (v : Z) :
  catalog K !! i = Some v <-> (i < K)%nat /\ v = Z.of_nat (S i).
Proof.
  unfold catalog. rewrite list_lookup_fmap. split.
  - intros H. destruct (seq 1 K !! i) as [n|] eqn:E; [|discriminate].
    apply lookup_seq in E. cbn in H. split; [lia|]. injection H as <-. lia.
  - intros [Hi ->]. rewrite (lookup_seq_lt 1 K i Hi). reflexivity.
Qed.

Lemma NoDup_catalog (K : nat) : NoDup (catalog K).
Proof.
  unfold catalog. apply NoDup_fmap_2; [|apply NoDup_seq].
  intros x y H. lia.
Qed.

(** ** Transition encoding *)

(** C1: over the codes of a catalog of size K < 100 the encoding
    [v1 * 100 + v2] is injective on pairs, and quotient and remainder by
    100 give back the pair. *)
Theorem C1_changeValue_injective_decode (K : nat) (v1 v2 w1 w2 : Z) :
  (K < 100)%nat ->
  v1 ∈ catalog K -> v2 ∈ catalog K -> w1 ∈ catalog K -> w2 ∈ catalog K ->
  (changeValue v1 v2 = changeValue w1 w2 -> v1 = w1 /\ v2 = w2) /\
  changeValue v1 v2 / 100 = v1 /\
  changeValue v1 v2 mod 100 = v2.
Proof.
  rewrite !elem_of_catalog. unfold changeValue. intros HK H1 H2 H3 H4.
  split; [lia|]. split.
  - rewrite Z.div_add_l by lia. rewrite Z.div_small by lia. lia.
  - rewrite Z.add_comm, Z.mod_add by lia. apply Z.mod_small. lia.
Qed.

Lemma C1_witness :
  (changeValue 1 3 = changeValue 1 3 -> 1 = 1 /\ 3 = 3) /\
  changeValue 1 3 / 100 = 1 /\ changeValue 1 3 mod 100 = 3.
Proof.
  apply (C1_changeValue_injective_decode 6 1 3 1 3); first lia;
    apply elem_of_catalog; lia.
Defined.

(** Injectivity alone survives up to K = 100. *)
Lemma changeValue_inj_100 (K : nat) (v1 v2 w1 w2 : Z) :
  (K <= 100)%nat ->
  v1 ∈ catalog K -> v2 ∈ catalog K -> w1 ∈ catalog K -> w2 ∈ catalog K ->
  changeValue v1 v2 = changeValue w1 w2 -> v1 = w1 /\ v2 = w2.
Proof.
  rewrite !elem_of_catalog. unfold changeValue. lia.
Qed.

(** ** The loop as one pass over the ordered pairs of entries *)

Lemma fold_left_list_prod {S A B} (f : A -> S -> B -> S)
    (l : list A) (k : list B) (s : S) :
  fold_left (fun st a => fold_left (f a) k st) l s =
  fold_left (fun st pr => f (fst pr) st (snd pr)) (list_prod l k) s.
Proof.
  revert s. induction l as [|a l IH]; intros s; [reflexivity|].
  cbn [fold_left list_prod]. rewrite fold_left_app, IH. f_equal.
  clear IH. revert s. induction k as [|b k IHk]; intros s; [reflexivity|].
  cbn [map fold_left fst snd]. apply IHk.
Qed.

Lemma changeLoop_pairs (vs : list Z) (ns : list string) (from to : Image) :
  changeLoop vs ns from to =
  fold_left (pairStep ns from to) (list_prod (entries vs) (entries vs))
    {| changeValues := []; changeNames := []; changeMap := ee.constant 0 |}.
Proof.
  unfold changeLoop.
  rewrite (fold_left_list_prod
             (fun e1 st e2 => changeStep ns from to (fst e1) (snd e1) st e2)).
  reflexivity.
Qed.

Lemma where_at (from to : Image) (m : Image) (p : cell) (v1 v2 c : Z) :
  ee.where_ m (ee.and (ee.eq from (ee.constant v1)) (ee.eq to (ee.constant v2)))
    (ee.constant c) p =
  match m p with
  | None => None
  | Some i => Some (if hit from to p v1 v2 then c else i)
  end.
Proof.
  unfold ee.where_, ee.and, ee.eq, ee.binary, ee.constant, hit.
  destruct (m p) as [i|]; [|reflexivity].
  destruct (from p) as [a|]; [|reflexivity].
  destruct (to p) as [b|]; [|reflexivity].
  destruct (a =? v1), (b =? v2); reflexivity.
Qed.

Lemma pairStep_fold (ns : list string) (from to : Image)
    (ps : list ((Z * nat) * (Z * nat))) (st : changeState) :
  changeValues (fold_left (pairStep ns from to) ps st) =
    changeValues st ++ map (fun pr => changeValue (fst (fst pr)) (fst (snd pr))) ps /\
  changeNames (fold_left (pairStep ns from to) ps st) =
    changeNames st ++ map (fun pr => changeName ns (snd (fst pr)) (snd (snd pr))) ps /\
  forall p, changeMap (fold_left (pairStep ns from to) ps st) p =
    match changeMap st p with
    | None => None
    | Some i => Some (fold_left (cellStep from to p) ps i)
    end.
Proof.
  revert st. induction ps as [|[[v1 i1] [v2 i2]] ps IH]; intros st.
  - cbn. rewrite !app_nil_r. repeat split. intros p. destruct (changeMap st p); reflexivity.
  - cbn [fold_left]. destruct (IH (pairStep ns from to st (v1, i1, (v2, i2)))) as (Hv & Hn & Hm).
    rewrite Hv, Hn. split; [|split].
    + unfold pairStep. cbn. rewrite <- app_assoc. reflexivity.
    + unfold pairStep. cbn. rewrite <- app_assoc. reflexivity.
    + intros p. rewrite Hm.
      unfold pairStep. cbn [changeStep changeMap fst snd]. rewrite where_at.
      destruct (changeMap st p); reflexivity.
Qed.

(** Membership in the array entries. *)
Lemma elem_of_entries_from {A} (x : A) (l : list A) (s i : nat) :
  (x, i) ∈ combine l (seq s (length l)) <->
  (s <= i)%nat /\ l !! (i - s)%nat = Some x.
Proof.
  revert s. induction l as [|a l IH]; intros s; cbn [combine length seq].
  - rewrite elem_of_nil. split; [tauto|]. intros [_ H]. discriminate.
  - rewrite elem_of_cons, IH. split.
    + intros [H|[H1 H2]].
      * injection H as -> ->. rewrite Nat.sub_diag. split; [lia|reflexivity].
      * split; [lia|]. replace (i - s)%nat with (S (i - S s)) by lia. exact H2.
    + intros [H1 H2]. destruct (decide (i = s)) as [->|Hne].
      * left. rewrite Nat.sub_diag in H2. cbn in H2. congruence.
      * right. split; [lia|].
        replace (i - s)%nat with (S (i - S s)) in H2 by lia. exact H2.
Qed.

Lemma elem_of_entries {A} (l : list A) (x : A) (i : nat) :
  (x, i) ∈ entries l <-> l !! i = Some x.
Proof.
  unfold entries. rewrite elem_of_entries_from, Nat.sub_0_r.
  split; [tauto|]. intros H. split; [lia|exact H].
Qed.

Lemma entries_fst {A} (l : list A) : map fst (entries l) = l.
Proof.
  unfold entries. generalize 0%nat.
  induction l as [|a l IH]; intros s; [reflexivity|].
  cbn. f_equal. apply IH.
Qed.

Lemma length_entries {A} (l : list A) : length (entries l) = length l.
Proof. rewrite <- (length_map fst), entries_fst. reflexivity. Qed.

Lemma elem_of_entries_pairs {A} (l : list A) (pr : (A * nat) * (A * nat)) :
  pr ∈ list_prod (entries l) (entries l) <->
  l !! snd (fst pr) = Some (fst (fst pr)) /\ l !! snd (snd pr) = Some (fst (snd pr)).
Proof.
  destruct pr as [[a i] [b j]]. cbn [fst snd].
  rewrite list_elem_of_In, in_prod_iff, <- !list_elem_of_In, !elem_of_entries.
  reflexivity.
Qed.

(** ** The number the loop leaves at one cell *)

Lemma hit_true (from to : Image) (p : cell) (v1 v2 : Z) :
  hit from to p v1 v2 = true <-> from p = Some v1 /\ to p = Some v2.
Proof.
  unfold hit. destruct (from p) as [a|], (to p) as [b|];
    try (split; [discriminate | intros [? ?]; discriminate]).
  rewrite andb_true_iff, !Z.eqb_eq. split.
  - intros [-> ->]. split; reflexivity.
  - intros [H1 H2]. split; congruence.
Qed.

Lemma cellStep_no_hit (from to : Image) (p : cell)
    (ps : list ((Z * nat) * (Z * nat))) (i : Z) :
  (forall pr, pr ∈ ps -> hit from to p (fst (fst pr)) (fst (snd pr)) = false) ->
  fold_left (cellStep from to p) ps i = i.
Proof.
  revert i. induction ps as [|pr ps IH]; intros i H; [reflexivity|].
  cbn [fold_left]. unfold cellStep at 2. rewrite (H pr) by apply list_elem_of_here.
  apply IH. intros q Hq. apply H. apply list_elem_of_further, Hq.
Qed.

Lemma cellStep_stable (from to : Image) (p : cell)
    (ps : list ((Z * nat) * (Z * nat))) (c : Z) :
  (forall pr, pr ∈ ps -> hit from to p (fst (fst pr)) (fst (snd pr)) = true ->
              changeValue (fst (fst pr)) (fst (snd pr)) = c) ->
  fold_left (cellStep from to p) ps c = c.
Proof.
  induction ps as [|pr ps IH]; intros H; [reflexivity|].
  cbn [fold_left]. unfold cellStep at 2.
  destruct (hit from to p (fst (fst pr)) (fst (snd pr))) eqn:E.
  - rewrite (H pr (list_elem_of_here _ _) E). apply IH.
    intros q Hq. apply H. apply list_elem_of_further, Hq.
  - apply IH. intros q Hq. apply H. apply list_elem_of_further, Hq.
Qed.

Lemma cellStep_hit (from to : Image) (p : cell)
    (ps : list ((Z * nat) * (Z * nat))) (c i : Z) :
  (forall pr, pr ∈ ps -> hit from to p (fst (fst pr)) (fst (snd pr)) = true ->
              changeValue (fst (fst pr)) (fst (snd pr)) = c) ->
  (exists pr, pr ∈ ps /\ hit from to p (fst (fst pr)) (fst (snd pr)) = true) ->
  fold_left (cellStep from to p) ps i = c.
Proof.
  revert i. induction ps as [|pr ps IH]; intros i H (q & Hq & Hhit).
  - apply elem_of_nil in Hq. contradiction.
  - cbn [fold_left]. unfold cellStep at 2.
    destruct (hit from to p (fst (fst pr)) (fst (snd pr))) eqn:E.
    + rewrite (H pr (list_elem_of_here _ _) E). apply cellStep_stable.
      intros r Hr. apply H. apply list_elem_of_further, Hr.
    + apply IH.
      * intros r Hr. apply H. apply list_elem_of_further, Hr.
      * apply elem_of_cons in Hq as [->|Hq]; [congruence|]. exists q. split; assumption.
Qed.

(** The full change map at a cell whose two classes are catalog codes. *)
Lemma changeMap_at_hit (vs : list Z) (ns : list string) (from to : Image)
    (p : cell) (a b : Z) :
  from p = Some a -> to p = Some b -> a ∈ vs -> b ∈ vs ->
  changeMap (changeLoop vs ns from to) p = Some (changeValue a b).
Proof.
  intros Hf Ht Ha Hb. rewrite changeLoop_pairs.
  destruct (pairStep_fold ns from to (list_prod (entries vs) (entries vs))
              {| changeValues := []; changeNames := []; changeMap := ee.constant 0 |})
    as (_ & _ & Hm).
  rewrite Hm. cbn [changeMap]. unfold ee.constant. f_equal.
  apply cellStep_hit.
  - intros pr _ Hh. apply hit_true in Hh as [H1 H2]. congruence.
  - apply list_elem_of_lookup in Ha as [i Hi]. apply list_elem_of_lookup in Hb as [j Hj].
    exists ((a, i), (b, j)). split.
    + apply elem_of_entries_pairs. cbn. split; assumption.
    + apply hit_true. cbn. split; assumption.
Qed.

(** The full change map at a cell that no ordered pair of codes matches. *)
Lemma changeMap_at_miss (vs : list Z) (ns : list string) (from to : Image) (p : cell) :
  (forall a b, a ∈ vs -> b ∈ vs -> ~ (from p = Some a /\ to p = Some b)) ->
  changeMap (changeLoop vs ns from to) p = Some 0.
Proof.
  intros H. rewrite changeLoop_pairs.
  destruct (pairStep_fold ns from to (list_prod (entries vs) (entries vs))
              {| changeValues := []; changeNames := []; changeMap := ee.constant 0 |})
    as (_ & _ & Hm).
  rewrite Hm. cbn [changeMap]. unfold ee.constant. f_equal.
  apply cellStep_no_hit. intros [[a i] [b j]] Hpr. cbn [fst snd].
  apply elem_of_entries_pairs in Hpr as [Ha Hb]. cbn [fst snd] in Ha, Hb.
  destruct (hit from to p a b) eqn:E; [|reflexivity].
  apply hit_true in E. exfalso. apply (H a b).
  - apply list_elem_of_lookup. exists i. exact Ha.
  - apply list_elem_of_lookup. exists j. exact Hb.
  - exact E.
Qed.

(** Whatever the inputs, the full change map is unmasked everywhere. *)
Lemma changeMap_unmasked (vs : list Z) (ns : list string) (from to : Image) (p : cell) :
  exists v, changeMap (changeLoop vs ns from to) p = Some v.
Proof.
  rewrite changeLoop_pairs.
  destruct (pairStep_fold ns from to (list_prod (entries vs) (entries vs))
              {| changeValues := []; changeNames := []; changeMap := ee.constant 0 |})
    as (_ & _ & Hm).
  rewrite Hm. cbn [changeMap]. unfold ee.constant. eexists. reflexivity.
Qed.

Lemma length_changeLoop (vs : list Z) (ns : list string) (from to : Image) :
  length (changeValues (changeLoop vs ns from to)) = (length vs * length vs)%nat /\
  length (changeNames (changeLoop vs ns from to)) = (length vs * length vs)%nat.
Proof.
  rewrite changeLoop_pairs.
  destruct (pairStep_fold ns from to (list_prod (entries vs) (entries vs))
              {| changeValues := []; changeNames := []; changeMap := ee.constant 0 |})
    as (Hv & Hn & _).
  rewrite Hv, Hn. cbn [changeValues changeNames app].
  rewrite !length_map, length_prod, length_entries. split; reflexivity.
Qed.

Lemma selfMask_at (m : Image) (p : cell) (v : Z) :
  m p = Some v -> ee.selfMask m p = if v =? 0 then None else Some v.
Proof. intros H. unfold ee.selfMask. rewrite H. reflexivity. Qed.

Lemma changeValue_same_nonzero (v : Z) : v <> 0 -> changeValue v v <> 0.
Proof. unfold changeValue. lia. Qed.

(** ** Cells outside the catalog *)

(** C9: a cell whose class pair no ordered pair of catalog codes matches
    keeps the initial 0 and is masked by the self-mask; hence an unmasked
    cell of the masked change map has both classes in the catalog (and
    holds their encoding). *)
Theorem C9_unmatched_cells_masked (vs : list Z) (ns : list string)
    (from to : Image) (p : cell) :
  ((forall a b, a ∈ vs -> b ∈ vs -> ~ (from p = Some a /\ to p = Some b)) ->
   changeMap (changeLoop vs ns from to) p = Some 0 /\
   changeMap' vs ns from to p = None) /\
  (forall v, changeMap' vs ns from to p = Some v ->
   exists a b, a ∈ vs /\ b ∈ vs /\ from p = Some a /\ to p = Some b /\
               v = changeValue a b).
Proof.
  split.
  - intros H. pose proof (changeMap_at_miss vs ns from to p H) as Hm.
    split; [exact Hm|]. unfold changeMap', loop.
    rewrite (selfMask_at _ _ _ Hm). reflexivity.
  - intros v Hv.
    destruct (from p) as [a|] eqn:Ef; [destruct (to p) as [b|] eqn:Et|].
    + destruct (decide (a ∈ vs)) as [Ha|Ha]; [destruct (decide (b ∈ vs)) as [Hb|Hb]|].
      * exists a, b. repeat (split; [assumption || reflexivity|]).
        pose proof (changeMap_at_hit vs ns from to p a b Ef Et Ha Hb) as Hm.
        unfold changeMap', loop in Hv. rewrite (selfMask_at _ _ _ Hm) in Hv.
        destruct (changeValue a b =? 0); congruence.
      * exfalso. unfold changeMap', loop in Hv.
        rewrite (selfMask_at _ _ 0) in Hv; [discriminate|].
        apply changeMap_at_miss. intros a' b' _ Hb' [_ H2]. congruence.
      * exfalso. unfold changeMap', loop in Hv.
        rewrite (selfMask_at _ _ 0) in Hv; [discriminate|].
        apply changeMap_at_miss. intros a' b' Ha' _ [H1 _]. congruence.
    + exfalso. unfold changeMap', loop in Hv.
      rewrite (selfMask_at _ _ 0) in Hv; [discriminate|].
      apply changeMap_at_miss. intros a' b' _ _ [_ H2]. congruence.
    + exfalso. unfold changeMap', loop in Hv.
      rewrite (selfMask_at _ _ 0) in Hv; [discriminate|].
      apply changeMap_at_miss. intros a' b' _ _ [H1 _]. congruence.
Qed.

Lemma not_in_values_7 : 7 ∉ values.
Proof. intros H. apply list_elem_of_In in H. cbn in H. intuition discriminate. Qed.

Lemma C9_witness :
  (changeMap (changeLoop values names exA exB) (2, 0) = Some 0 /\
   changeMap' values names exA exB (2, 0) = None) /\
  (exists a b, a ∈ values /\ b ∈ values /\ exA (1, 0) = Some a /\
               exB (1, 0) = Some b /\ 203 = changeValue a b).
Proof.
  split.
  - apply (proj1 (C9_unmatched_cells_masked values names exA exB (2, 0))).
    intros a b Ha _ [H1 _]. injection H1 as <-. exact (not_in_values_7 Ha).
  - apply (proj2 (C9_unmatched_cells_masked values names exA exB (1, 0)) 203).
    reflexivity.
Defined.

(** ** Identical rasters *)

(** C5 as the script behaves: when the two rasters are identical, a cell
    holding the catalog code v (v nonzero) holds v * 100 + v in the full
    change map and keeps that value under the self-mask; the self-mask
    removes no such cell. *)
Theorem C5_identical_rasters_kept (vs : list Z) (ns : list string)
    (r : Image) (p : cell) (v : Z) :
  r p = Some v -> v ∈ vs -> v <> 0 ->
  changeMap (changeLoop vs ns r r) p = Some (changeValue v v) /\
  changeMap' vs ns r r p = Some (changeValue v v).
Proof.
  intros Hr Hv Hnz.
  pose proof (changeMap_at_hit vs ns r r p v v Hr Hr Hv Hv) as Hm.
  split; [exact Hm|]. unfold changeMap', loop. rewrite (selfMask_at _ _ _ Hm).
  destruct (changeValue v v =? 0) eqn:E; [|reflexivity].
  apply Z.eqb_eq in E. exfalso. exact (changeValue_same_nonzero v Hnz E).
Qed.

Lemma in_values_1 : 1 ∈ values.
Proof. apply list_elem_of_here. Qed.

Lemma C5_witness :
  changeMap (changeLoop values names exWater exWater) (0, 0) = Some 101 /\
  changeMap' values names exWater exWater (0, 0) = Some 101.
Proof.
  apply (C5_identical_rasters_kept values names exWater (0, 0) 1);
    [reflexivity | exact in_values_1 | discriminate].
Defined.

(** With both rasters of class 1 everywhere, the self-masked change map is
    not empty: the cell (0, 0) keeps 101. *)
Lemma C5_counterexample :
  ~ (forall p, changeMap' values names exWater exWater p = None).
Proof.
  intros H. specialize (H (0, 0)). vm_compute in H. discriminate.
Qed.

(** ** No check of the catalog size *)

(** C3 as the script behaves: for a catalog of size K >= 100 the loop runs
    like for any other size; it leaves the encoding at every cell whose two
    classes are catalog codes, and K * K values and labels.  The catalog
    then holds the pair (1, 100), whose encoding has quotient 2 and
    remainder 0 by 100, and 0 is no catalog code; from K = 101 on it also
    holds the distinct pairs (1, 101) and (2, 1), which receive the same
    encoding, so that cells of different transitions hold the same value. *)
Theorem C3_large_catalog_encoded (K : nat) (ns : list string)
    (from to : Image) (p : cell) (a b : Z) :
  (100 <= K)%nat ->
  a ∈ catalog K -> b ∈ catalog K -> from p = Some a -> to p = Some b ->
  (changeMap (changeLoop (catalog K) ns from to) p = Some (changeValue a b) /\
   changeMap' (catalog K) ns from to p = Some (changeValue a b) /\
   length (changeValues (changeLoop (catalog K) ns from to)) = (K * K)%nat /\
   length (changeNames (changeLoop (catalog K) ns from to)) = (K * K)%nat) /\
  (1 ∈ catalog K /\ 100 ∈ catalog K /\
   changeValue 1 100 / 100 = 2 /\ changeValue 1 100 mod 100 = 0 /\
   (0 ∉ catalog K) /\
   forall q, from q = Some 1 -> to q = Some 100 ->
     exists v, changeMap' (catalog K) ns from to q = Some v /\
               v / 100 <> 1 /\ v mod 100 <> 100) /\
  ((101 <= K)%nat ->
   1 ∈ catalog K /\ 101 ∈ catalog K /\ 2 ∈ catalog K /\
   (1, 101) <> (2, 1) /\
   changeValue 1 101 = changeValue 2 1 /\
   forall q q', from q = Some 1 -> to q = Some 101 ->
                from q' = Some 2 -> to q' = Some 1 ->
     changeMap' (catalog K) ns from to q = changeMap' (catalog K) ns from to q').
Proof.
  intros HK Ha Hb Hf Ht.
  assert (forall q c d, c ∈ catalog K -> d ∈ catalog K ->
            from q = Some c -> to q = Some d ->
            changeMap' (catalog K) ns from to q = Some (changeValue c d)) as Hmask.
  { intros q c d Hc Hd Hfq Htq.
    pose proof (changeMap_at_hit (catalog K) ns from to q c d Hfq Htq Hc Hd) as Hm.
    unfold changeMap', loop. rewrite (selfMask_at _ _ _ Hm).
    destruct (changeValue c d =? 0) eqn:E; [|reflexivity].
    apply Z.eqb_eq in E. apply elem_of_catalog in Hc, Hd. unfold changeValue in E. lia. }
  split; [|split].
  - pose proof (changeMap_at_hit (catalog K) ns from to p a b Hf Ht Ha Hb) as Hm.
    destruct (length_changeLoop (catalog K) ns from to) as [Hv Hn].
    rewrite length_catalog in Hv, Hn.
    split; [exact Hm|]. split; [exact (Hmask p a b Ha Hb Hf Ht)|].
    split; assumption.
  - assert (1 ∈ catalog K) as H1 by (apply elem_of_catalog; lia).
    assert (100 ∈ catalog K) as H100 by (apply elem_of_catalog; lia).
    split; [exact H1|]. split; [exact H100|].
    split; [reflexivity|]. split; [reflexivity|]. split.
    + intros H0. apply elem_of_catalog in H0. lia.
    + intros q Hfq Htq. exists (changeValue 1 100).
      split; [exact (Hmask q 1 100 H1 H100 Hfq Htq)|].
      split; [cbv; discriminate|cbv; discriminate].
  - intros HK'.
    assert (1 ∈ catalog K) as H1 by (apply elem_of_catalog; lia).
    assert (101 ∈ catalog K) as H101 by (apply elem_of_catalog; lia).
    assert (2 ∈ catalog K) as H2 by (apply elem_of_catalog; lia).
    split; [exact H1|]. split; [exact H101|]. split; [exact H2|].
    split; [discriminate|]. split; [reflexivity|].
    intros q q' Hfq Htq Hfq' Htq'.
    rewrite (Hmask q 1 101 H1 H101 Hfq Htq), (Hmask q' 2 1 H2 H1 Hfq' Htq').
    reflexivity.
Qed.

Lemma C3_witness :
  (changeMap (changeLoop (catalog 101) names (ee.constant 1) (ee.constant 100)) (0, 0)
     = Some (changeValue 1 100) /\
   changeMap' (catalog 101) names (ee.constant 1) (ee.constant 100) (0, 0)
     = Some (changeValue 1 100) /\
   length (changeValues (changeLoop (catalog 101) names (ee.constant 1) (ee.constant 100)))
     = (101 * 101)%nat /\
   length (changeNames (changeLoop (catalog 101) names (ee.constant 1) (ee.constant 100)))
     = (101 * 101)%nat) /\
  changeValue 1 100 / 100 = 2 /\
  changeValue 1 101 = changeValue 2 1.
Proof.
  destruct (C3_large_catalog_encoded 101 names (ee.constant 1) (ee.constant 100) (0, 0) 1 100)
    as (Hrun & Hdec & Hcol);
    [lia | apply elem_of_catalog; lia | apply elem_of_catalog; lia
    | reflexivity | reflexivity |].
  split; [exact Hrun|]. split.
  - exact (proj1 (proj2 (proj2 Hdec))).
  - exact (proj1 (proj2 (proj2 (proj2 (proj2 (Hcol (Nat.le_refl 101))))))).
Defined.

(** For the catalog of size 100 the loop produces an encoded raster: the
    cell going from class 1 to class 100 holds 200, whose quotient by 100
    is 2. *)
Lemma C3_counterexample :
  exists st, changeLoop (catalog 100) names (ee.constant 1) (ee.constant 100) = st /\
    changeMap st (0, 0) = Some 200 /\ 200 / 100 = 2.
Proof.
  eexists. split; [reflexivity|]. split; [|reflexivity].
  apply (changeMap_at_hit (catalog 100) names _ _ (0, 0) 1 100);
    try reflexivity; apply elem_of_catalog; lia.
Qed.

(** ** The transition band and the displayed layer *)

(** C2 as the script behaves: one raster, the self-masked change map, is the
    transition band of both feature images and the displayed change layer.
    It is masked exactly where the loop left 0, and a no-change cell whose
    class v is a nonzero catalog code keeps v * 100 + v in it. *)
Theorem C2_one_self_masked_raster (vs : list Z) (ns : list string)
    (l14 l24 srtm : Image) (roi : list cell)
    (sampler : Bands -> nat -> string -> Z -> list cell -> list Feature)
    (rnd : nat -> Q)
    (forest : nat -> list Feature -> string -> list string -> Bands -> Image) :
  bandOf "transition" (variables vs ns l14 l24 srtm roi)
    = Some (changeMap' vs ns l14 l24) /\
  bandOf "transition" (variables2025 vs ns l14 l24 srtm roi)
    = Some (changeMap' vs ns l14 l24) /\
  bandOf "Land cover change map" (layers vs ns l14 l24 srtm roi sampler rnd forest)
    = Some (changeMap' vs ns l14 l24) /\
  (forall p, changeMap' vs ns l14 l24 p = None <->
             changeMap (changeLoop vs ns l14 l24) p = Some 0) /\
  (forall p v, l14 p = Some v -> l24 p = Some v -> v ∈ vs -> v <> 0 ->
               changeMap' vs ns l14 l24 p = Some (changeValue v v)).
Proof.
  repeat split.
  - unfold changeMap', loop, ee.selfMask.
    destruct (changeMap_unmasked vs ns l14 l24 p) as [v Hv]. rewrite Hv.
    destruct (v =? 0) eqn:E; [|discriminate].
    apply Z.eqb_eq in E. congruence.
  - intros H. unfold changeMap', loop. rewrite (selfMask_at _ _ _ H). reflexivity.
  - intros p v H14 H24 Hv Hnz.
    pose proof (changeMap_at_hit vs ns l14 l24 p v v H14 H24 Hv Hv) as Hm.
    unfold changeMap', loop. rewrite (selfMask_at _ _ _ Hm).
    destruct (changeValue v v =? 0) eqn:E; [|reflexivity].
    apply Z.eqb_eq in E. exfalso. exact (changeValue_same_nonzero v Hnz E).
Qed.

Lemma C2_witness :
  changeMap' values names exA exA (0, 0) = Some (changeValue 1 1).
Proof.
  apply (proj2 (proj2 (proj2 (proj2
           (C2_one_self_masked_raster values names exA exA exA exRoi
              exSample exRandom exForest)))) (0, 0) 1);
    [reflexivity | reflexivity | exact in_values_1 | discriminate].
Defined.

(** On rasters that agree at cell (0, 0) and hold no data at cell (3, 0):
    the transition band is the displayed layer, the displayed layer shows
    the no-change cell, and the band is masked where the full change map
    holds 0. *)
Lemma C2_counterexample :
  bandOf "transition" (variables values names exA exB exA exRoi)
    = bandOf "Land cover change map"
        (layers values names exA exB exA exRoi exSample exRandom exForest) /\
  exA (0, 0) = exB (0, 0) /\
  changeMap' values names exA exB (0, 0) = Some 101 /\
  changeMap (changeLoop values names exA exB) (3, 0) = Some 0 /\
  changeMap' values names exA exB (3, 0) = None.
Proof.
  split; [reflexivity|]. split; [reflexivity|].
  split; [vm_compute; reflexivity|]. split; vm_compute; reflexivity.
Qed.

(** ** The year band *)

(** C6 as the script behaves: the year band of the training features holds
    2024 at a cell where both rasters hold a class and the classes differ,
    0 where both hold a class and the classes agree, and is masked where
    either raster has no data; the year band of the forecast features is the
    same with 2033, computed from the 2024 and 2014 rasters. *)
Theorem C6_year_band (vs : list Z) (ns : list string)
    (l14 l24 srtm : Image) (roi : list cell) :
  exists y24 y33,
    bandOf "year" (variables vs ns l14 l24 srtm roi) = Some y24 /\
    bandOf "year" (variables2025 vs ns l14 l24 srtm roi) = Some y33 /\
    forall p,
      y24 p = match l14 p, l24 p with
              | Some a, Some b => Some (if a =? b then 0 else 2024)
              | _, _ => None
              end /\
      y33 p = match l14 p, l24 p with
              | Some a, Some b => Some (if a =? b then 0 else 2033)
              | _, _ => None
              end.
Proof.
  eexists _, _. split; [reflexivity|]. split; [reflexivity|].
  intros p. unfold ee.multiply, ee.neq, ee.binary, ee.constant.
  destruct (l14 p) as [a|], (l24 p) as [b|]; try (split; reflexivity).
  rewrite (Z.eqb_sym b a). destruct (a =? b); split; reflexivity.
Qed.

(** Where a raster has no data the year band is neither the year nor zero:
    at cell (1, 0) the 2014 raster holds class 2 and the 2024 raster holds
    nothing, at cell (3, 0) neither raster holds anything, and both cells
    of the year band are masked. *)
Lemma C6_counterexample :
  exists y,
    bandOf "year" (variables values names exA exGap exA exRoi) = Some y /\
    exA (1, 0) = Some 2 /\ exGap (1, 0) = None /\
    y (1, 0) <> Some 2024 /\ y (1, 0) <> Some 0 /\
    exA (3, 0) = exGap (3, 0) /\
    y (3, 0) <> Some 0.
Proof.
  eexists. split; [reflexivity|].
  repeat split; try reflexivity; vm_compute; discriminate.
Qed.

(** ** The change dictionary *)

Lemma fromLists_fold_notin (l : list (string * string)) (m : gmap string string)
    (k : string) :
  k ∉ map fst l ->
  fold_left (fun m kv => <[fst kv := snd kv]> m) l m !! k = m !! k.
Proof.
  revert m. induction l as [|[k0 v0] l IH]; intros m Hk; [reflexivity|].
  cbn [fold_left fst snd]. cbn [map fst] in Hk. apply not_elem_of_cons in Hk as [Hne Hk].
  rewrite (IH _ Hk). apply lookup_insert_ne. congruence.
Qed.

Lemma fromLists_fold_lookup (l : list (string * string)) (m : gmap string string)
    (k v : string) :
  NoDup (map fst l) -> (k, v) ∈ l ->
  fold_left (fun m kv => <[fst kv := snd kv]> m) l m !! k = Some v.
Proof.
  revert m. induction l as [|[k0 v0] l IH]; intros m Hnd Hin.
  - apply elem_of_nil in Hin. contradiction.
  - cbn [fold_left fst snd]. cbn [map fst] in Hnd. apply NoDup_cons in Hnd as [Hk0 Hnd].
    apply elem_of_cons in Hin as [Heq|Hin].
    + injection Heq as -> ->. rewrite (fromLists_fold_notin _ _ _ Hk0).
      apply lookup_insert_eq.
    + apply IH; assumption.
Qed.

Lemma fromLists_fold_size (l : list (string * string)) (m : gmap string string) :
  NoDup (map fst l) -> (forall k, k ∈ map fst l -> m !! k = None) ->
  size (fold_left (fun m kv => <[fst kv := snd kv]> m) l m) = (size m + length l)%nat.
Proof.
  revert m. induction l as [|[k0 v0] l IH]; intros m Hnd Hfresh.
  - cbn. lia.
  - cbn [fold_left fst snd length]. cbn [map fst] in Hnd, Hfresh.
    apply NoDup_cons in Hnd as [Hk0 Hnd]. rewrite IH.
    + rewrite map_size_insert_None; [lia|]. apply Hfresh. apply list_elem_of_here.
    + exact Hnd.
    + intros k Hk. rewrite lookup_insert_ne.
      * apply Hfresh. apply list_elem_of_further, Hk.
      * intros ->. contradiction.
Qed.

Lemma combine_map_same {A B C} (f : A -> B) (g : A -> C) (l : list A) :
  combine (map f l) (map g l) = map (fun x => (f x, g x)) l.
Proof. induction l as [|a l IH]; [reflexivity|]. cbn. f_equal. exact IH. Qed.

Lemma entries_snd {A} (l : list A) : map snd (entries l) = seq 0 (length l).
Proof.
  unfold entries. generalize 0%nat.
  induction l as [|a l IH]; intros s; [reflexivity|].
  cbn. f_equal. apply IH.
Qed.

Lemma NoDup_entries {A} (l : list A) : NoDup (entries l).
Proof.
  apply (NoDup_fmap_1 snd). change (NoDup (map snd (entries l))).
  rewrite entries_snd. apply NoDup_seq.
Qed.

Lemma NoDup_list_prod {A B} (l : list A) (k : list B) :
  NoDup l -> NoDup k -> NoDup (list_prod l k).
Proof.
  intros Hl Hk. induction Hl as [|a l Ha Hl IH]; cbn [list_prod]; [constructor|].
  apply NoDup_app. split; [|split].
  - apply (NoDup_fmap_2 (pair a)), Hk.
  - intros [x y] H1 H2. apply list_elem_of_fmap in H1 as (b & Heq & _).
    injection Heq as -> ->. apply list_elem_of_In, in_prod_iff in H2 as [H2 _].
    apply Ha. apply list_elem_of_In. exact H2.
  - exact IH.
Qed.

(** The parallel lists the dictionary is built from, as one list of
    (key, label) over the ordered pairs of entries. *)
Lemma changeDict_fold (vs : list Z) (ns : list string) (l14 l24 : Image) :
  changeDict vs ns l14 l24 =
  fold_left (fun m kv => <[fst kv := snd kv]> m)
    (map (fun pr => (String_ (changeValue (fst (fst pr)) (fst (snd pr))),
                     changeName ns (snd (fst pr)) (snd (snd pr))))
         (list_prod (entries vs) (entries vs)))
    ∅.
Proof.
  unfold changeDict, ee.Dictionary_fromLists, loop. rewrite changeLoop_pairs.
  destruct (pairStep_fold ns l14 l24 (list_prod (entries vs) (entries vs))
              {| changeValues := []; changeNames := []; changeMap := ee.constant 0 |})
    as (Hv & Hn & _).
  rewrite Hv, Hn. cbn [changeValues changeNames app].
  rewrite map_map, combine_map_same. reflexivity.
Qed.

Lemma NoDup_change_keys (K : nat) (ns : list string) :
  (K <= 100)%nat ->
  NoDup (map fst
    (map (fun pr : (Z * nat) * (Z * nat) =>
            (String_ (changeValue (fst (fst pr)) (fst (snd pr))),
             changeName ns (snd (fst pr)) (snd (snd pr))))
         (list_prod (entries (catalog K)) (entries (catalog K))))).
Proof.
  intros HK. rewrite map_map. cbn [fst].
  apply NoDup_fmap_2_strong.
  - intros [[a i] [b j]] [[a' i'] [b' j']] H1 H2 Heq. cbn [fst snd] in Heq.
    apply elem_of_entries_pairs in H1 as [Ha Hb].
    apply elem_of_entries_pairs in H2 as [Ha' Hb'].
    cbn [fst snd] in Ha, Hb, Ha', Hb'.
    apply lookup_catalog in Ha as [Hi ->]. apply lookup_catalog in Hb as [Hj ->].
    apply lookup_catalog in Ha' as [Hi' ->]. apply lookup_catalog in Hb' as [Hj' ->].
    unfold String_ in Heq. apply pretty_Z_inj in Heq. unfold changeValue in Heq.
    assert (i = i' /\ j = j') as [-> ->] by lia. reflexivity.
  - apply NoDup_list_prod; apply NoDup_entries.
Qed.

(** C4 as the script behaves: for a catalog of size K <= 100 the change
    dictionary has exactly K * K entries, and the entry for the pair
    (v1, v2), under the key of v1 * 100 + v2, is the name of v1, then
    " -> ", then the name of v2. *)
Theorem C4_changeDict_entries (K : nat) (ns : list string) (l14 l24 : Image) :
  (K <= 100)%nat ->
  size (changeDict (catalog K) ns l14 l24) = (K * K)%nat /\
  forall v1 v2 n1 n2,
    v1 ∈ catalog K -> v2 ∈ catalog K ->
    ns !! Z.to_nat (v1 - 1) = Some n1 -> ns !! Z.to_nat (v2 - 1) = Some n2 ->
    changeDict (catalog K) ns l14 l24 !! String_ (changeValue v1 v2)
      = Some (n1 +:+ " -> " +:+ n2)%string.
Proof.
  intros HK. rewrite changeDict_fold. split.
  - rewrite fromLists_fold_size.
    + rewrite map_size_empty, length_map, length_prod, length_entries, length_catalog.
      reflexivity.
    + apply NoDup_change_keys, HK.
    + intros k _. apply lookup_empty.
  - intros v1 v2 n1 n2 H1 H2 Hn1 Hn2.
    apply fromLists_fold_lookup; [apply NoDup_change_keys, HK|].
    apply list_elem_of_fmap.
    exists ((v1, Z.to_nat (v1 - 1)), (v2, Z.to_nat (v2 - 1))). cbn [fst snd]. split.
    + unfold changeName. rewrite Hn1, Hn2. reflexivity.
    + apply elem_of_catalog in H1, H2.
      apply elem_of_entries_pairs. cbn [fst snd].
      split; apply lookup_catalog; lia.
Qed.

Lemma C4_witness :
  size (changeDict (catalog 6) names exA exB) = (6 * 6)%nat /\
  changeDict (catalog 6) names exA exB !! String_ (changeValue 1 2)
    = Some ("Waterbody" +:+ " -> " +:+ "Dense forest")%string.
Proof.
  destruct (C4_changeDict_entries 6 names exA exB) as [Hs Hl]; [lia|].
  split; [exact Hs|].
  apply Hl; [apply elem_of_catalog; lia | apply elem_of_catalog; lia
            | reflexivity | reflexivity].
Defined.

(** *** Colliding keys *)

Lemma fromLists_fold_size_le (l : list (string * string)) (m : gmap string string) :
  (size (fold_left (fun m kv => <[fst kv := snd kv]> m) l m) <= size m + length l)%nat.
Proof.
  revert m. induction l as [|[k0 v0] l IH]; intros m; cbn [fold_left length fst snd].
  - lia.
  - specialize (IH (<[k0:=v0]> m)). rewrite map_size_insert in IH.
    destruct (m !! k0); cbv [id] in IH; lia.
Qed.

Lemma fromLists_fold_present (l : list (string * string)) (m : gmap string string)
    (k : string) :
  is_Some (m !! k) \/ k ∈ map fst l ->
  is_Some (fold_left (fun m kv => <[fst kv := snd kv]> m) l m !! k).
Proof.
  revert m. induction l as [|[k0 v0] l IH]; intros m H; cbn [fold_left fst snd].
  - destruct H as [H|H]; [exact H|]. apply elem_of_nil in H. contradiction.
  - apply IH. cbn [map fst] in H. rewrite lookup_insert_is_Some.
    destruct (decide (k0 = k)) as [->|Hne]; [left; left; reflexivity|].
    destruct H as [H|H].
    + left. right. split; assumption.
    + apply elem_of_cons in H as [->|H]; [contradiction|]. right. exact H.
Qed.

Lemma fromLists_fold_size_lt (l : list (string * string)) (m : gmap string string)
    (k : string) :
  k ∈ map fst l -> is_Some (m !! k) ->
  (size (fold_left (fun m kv => <[fst kv := snd kv]> m) l m) < size m + length l)%nat.
Proof.
  revert m. induction l as [|[k0 v0] l IH]; intros m Hin Hm; cbn [fold_left length fst snd].
  - apply elem_of_nil in Hin. contradiction.
  - cbn [map fst] in Hin. destruct (decide (k0 = k)) as [->|Hne].
    + pose proof (fromLists_fold_size_le l (<[k:=v0]> m)) as Hle.
      rewrite map_size_insert in Hle. destruct Hm as [x Hx]. rewrite Hx in Hle. cbv [id] in Hle. lia.
    + apply elem_of_cons in Hin as [->|Hin]; [contradiction|].
      specialize (IH (<[k0:=v0]> m) Hin). rewrite map_size_insert in IH.
      assert (is_Some (<[k0:=v0]> m !! k)) as Hs.
      { rewrite lookup_insert_ne by exact Hne. exact Hm. }
      specialize (IH Hs). destruct (m !! k0); cbv [id] in IH; lia.
Qed.

(** Two positions with one key leave fewer entries than positions. *)
Lemma fromLists_fold_collision (l : list (string * string)) (i j : nat)
    (k v v' : string) :
  (i < j)%nat -> l !! i = Some (k, v) -> l !! j = Some (k, v') ->
  (size (fold_left (fun m kv => <[fst kv := snd kv]> m) l (∅ : gmap string string))
   < length l)%nat.
Proof.
  intros Hij Hi Hj. rewrite <- (take_drop j l) at 1. rewrite fold_left_app.
  pose proof (fromLists_fold_size_le (take j l) ∅) as H1.
  rewrite map_size_empty in H1.
  pose proof (fromLists_fold_size_lt (drop j l)
                (fold_left (fun m kv => <[fst kv := snd kv]> m) (take j l) ∅) k) as H2.
  assert (length l = length (take j l) + length (drop j l))%nat as Hlen.
  { rewrite <- length_app, take_drop. reflexivity. }
  rewrite Hlen. cut (k ∈ map fst (drop j l) /\ k ∈ map fst (take j l)).
  { intros [Hd Ht]. specialize (H2 Hd).
    pose proof (fromLists_fold_present (take j l) ∅ k (or_intror Ht)) as Hp.
    specialize (H2 Hp). lia. }
  split.
  - apply list_elem_of_fmap. exists (k, v'). split; [reflexivity|].
    apply list_elem_of_lookup. exists 0%nat. rewrite lookup_drop, Nat.add_0_r. exact Hj.
  - apply list_elem_of_fmap. exists (k, v). split; [reflexivity|].
    apply list_elem_of_lookup. exists i. rewrite lookup_take_lt by exact Hij. exact Hi.
Qed.

Lemma lookup_list_prod {A B} (l : list A) (k : list B) (i j : nat) (x : A) (y : B) :
  l !! i = Some x -> k !! j = Some y ->
  list_prod l k !! (i * length k + j)%nat = Some (x, y).
Proof.
  revert i. induction l as [|a l IH]; intros i Hx Hy; [discriminate|].
  cbn [list_prod]. destruct i as [|i].
  - cbn in Hx. injection Hx as ->. cbn [Nat.mul Nat.add].
    rewrite lookup_app_l.
    + change (map (fun y0 => (x, y0)) k) with (fmap (pair x) k).
      rewrite list_lookup_fmap, Hy. reflexivity.
    + rewrite length_map. apply lookup_lt_Some in Hy. exact Hy.
  - cbn in Hx. rewrite lookup_app_r; rewrite length_map; [|cbn; lia].
    replace (S i * length k + j - length k)%nat with (i * length k + j)%nat by (cbn; lia).
    apply IH; assumption.
Qed.

(** From size 101 on, the pairs (1, 101) and (2, 1) share the key of 201
    and the dictionary has fewer than K * K entries. *)
Lemma changeDict_collides (K : nat) (ns : list string) (l14 l24 : Image) :
  (101 <= K)%nat ->
  (size (changeDict (catalog K) ns l14 l24) < K * K)%nat.
Proof.
  intros HK. rewrite changeDict_fold.
  set (g := fun pr : (Z * nat) * (Z * nat) =>
              (String_ (changeValue (fst (fst pr)) (fst (snd pr))),
               changeName ns (snd (fst pr)) (snd (snd pr)))).
  replace (K * K)%nat
    with (length (map g (list_prod (entries (catalog K)) (entries (catalog K))))).
  2:{ rewrite length_map, length_prod, length_entries, length_catalog. reflexivity. }
  assert (forall i v, catalog K !! i = Some v -> entries (catalog K) !! i = Some (v, i)) as He.
  { intros i v Hv. assert ((v, i) ∈ entries (catalog K)) as Hin by (apply elem_of_entries, Hv).
    apply list_elem_of_lookup in Hin as [n Hn].
    assert (snd <$> entries (catalog K) !! n = Some i) as Hs by (rewrite Hn; reflexivity).
    rewrite <- list_lookup_fmap in Hs.
    change (fmap snd (entries (catalog K))) with (map snd (entries (catalog K))) in Hs.
    rewrite entries_snd in Hs. apply lookup_seq in Hs as [-> _]. exact Hn. }
  apply (fromLists_fold_collision _ (0 * K + 100) (1 * K + 0) (String_ 201)
           (changeName ns 0 100) (changeName ns 1 0)); [lia| |].
  - change (map g ?l) with (fmap g l). rewrite list_lookup_fmap.
    replace (0 * K + 100)%nat with (0 * length (entries (catalog K)) + 100)%nat
      by (rewrite length_entries, length_catalog; reflexivity).
    rewrite (lookup_list_prod _ _ 0 100 (1, 0%nat) (101, 100%nat)).
    + reflexivity.
    + apply He, lookup_catalog. split; [lia|reflexivity].
    + apply He, lookup_catalog. split; [lia|reflexivity].
  - change (map g ?l) with (fmap g l). rewrite list_lookup_fmap.
    replace (1 * K + 0)%nat with (1 * length (entries (catalog K)) + 0)%nat
      by (rewrite length_entries, length_catalog; reflexivity).
    rewrite (lookup_list_prod _ _ 1 0 (2, 1%nat) (1, 0%nat)).
    + reflexivity.
    + apply He, lookup_catalog. split; [lia|reflexivity].
    + apply He, lookup_catalog. split; [lia|reflexivity].
Qed.

(** For the catalog of size 101 the pairs (1, 101) and (2, 1) receive the
    same key, so the dictionary has fewer than 101 * 101 entries. *)
Lemma changeDict_size_101 :
  String_ (changeValue 1 101) = String_ (changeValue 2 1) /\
  size (changeDict (catalog 101) (replicate 101 "c"%string) exA exB)
    <> (101 * 101)%nat.
Proof.
  split; [reflexivity|].
  pose proof (changeDict_collides 101 (replicate 101 "c"%string) exA exB
                (Nat.le_refl 101)) as H.
  intros Heq. rewrite Heq in H. exact (Nat.lt_irrefl _ H).
Qed.

(** ** The train/test split *)

Lemma Filter_lte_true (name : string) (t : Q) (f : Feature) :
  ee.Filter_lte name t f = true <-> exists r, f !! name = Some r /\ (r <= t)%Q.
Proof.
  unfold ee.Filter_lte. destruct (f !! name) as [r|].
  - rewrite Z.leb_le. split.
    + intros H. exists r. split; [reflexivity|exact H].
    + intros (r' & Heq & H). injection Heq as <-. exact H.
  - split; [discriminate|]. intros (r & Heq & _). discriminate.
Qed.

Lemma Filter_gt_true (name : string) (t : Q) (f : Feature) :
  ee.Filter_gt name t f = true <-> exists r, f !! name = Some r /\ (t < r)%Q.
Proof.
  unfold ee.Filter_gt. destruct (f !! name) as [r|].
  - rewrite Z.ltb_lt. split.
    + intros H. exists r. split; [reflexivity|exact H].
    + intros (r' & Heq & H). injection Heq as <-. exact H.
  - split; [discriminate|]. intros (r & Heq & _). discriminate.
Qed.

(** On a feature that carries the property the two filters are
    complementary. *)
Lemma Filter_gt_negb_lte (name : string) (t : Q) (f : Feature) :
  is_Some (f !! name) ->
  ee.Filter_gt name t f = negb (ee.Filter_lte name t f).
Proof.
  intros [r Hr]. unfold ee.Filter_gt, ee.Filter_lte. rewrite Hr.
  apply Z.ltb_antisym.
Qed.

Lemma length_filter_complement {A} (f g : A -> bool) (l : list A) :
  (forall x, x ∈ l -> g x = negb (f x)) ->
  (length (List.filter f l) + length (List.filter g l))%nat = length l.
Proof.
  induction l as [|a l IH]; intros H; [reflexivity|].
  cbn [List.filter]. rewrite (H a) by apply list_elem_of_here.
  assert (forall x, x ∈ l -> g x = negb (f x)) as H' by
    (intros x Hx; apply H, list_elem_of_further, Hx).
  specialize (IH H'). destruct (f a); cbn [negb length]; lia.
Qed.

Lemma elem_of_filter_bool {A} (f : A -> bool) (l : list A) (x : A) :
  x ∈ List.filter f l <-> x ∈ l /\ f x = true.
Proof. rewrite !list_elem_of_In. apply filter_In. Qed.

Lemma randomColumn_random (rnd : nat -> Q) (fc : list Feature) (f : Feature) :
  f ∈ randomColumn rnd fc -> is_Some (f !! "random"%string).
Proof.
  unfold randomColumn. intros H. apply elem_of_lookup_imap in H as (i & f0 & -> & _).
  rewrite lookup_insert_eq. eexists. reflexivity.
Qed.

(** C7: whatever records the sampler returns and whatever random numbers
    they receive, the sample has as many records as the sampler returned,
    the sizes of train and test add up to that number, and every record of
    the sample has a random number r with either r <= 0.8 and the record in
    train and not in test, or r > 0.8 and the record in test and not in
    train. *)
Theorem C7_split_partition (vs : list Z) (ns : list string)
    (l14 l24 srtm : Image) (roi : list cell)
    (sampler : Bands -> nat -> string -> Z -> list cell -> list Feature)
    (rnd : nat -> Q) :
  let drawn := sampler (variables vs ns l14 l24 srtm roi) 3000%nat "transition"%string 10 roi in
  let smp := sample vs ns l14 l24 srtm roi sampler rnd in
  let tr := train vs ns l14 l24 srtm roi sampler rnd in
  let te := test vs ns l14 l24 srtm roi sampler rnd in
  length smp = length drawn /\
  (length tr + length te)%nat = length drawn /\
  forall f, f ∈ smp ->
    exists r, f !! "random"%string = Some r /\
      (((r <= split)%Q /\ f ∈ tr /\ f ∉ te) \/
       ((split < r)%Q /\ f ∈ te /\ f ∉ tr)).
Proof.
  intros drawn smp tr te.
  assert (length smp = length drawn) as Hlen.
  { unfold smp, sample, randomColumn. apply length_imap. }
  split; [exact Hlen|]. split.
  - rewrite <- Hlen. unfold tr, te, train, test. apply length_filter_complement.
    intros f Hf. apply Filter_gt_negb_lte. exact (randomColumn_random _ _ _ Hf).
  - intros f Hf. destruct (randomColumn_random _ _ _ Hf) as [r Hr].
    exists r. split; [exact Hr|].
    pose proof (Filter_gt_negb_lte "random" split f (ex_intro _ r Hr)) as Hneg.
    unfold tr, te, train, test. rewrite !elem_of_filter_bool.
    destruct (ee.Filter_lte "random" split f) eqn:E.
    + left. cbn in Hneg. pose proof E as E'.
      apply Filter_lte_true in E' as (r' & Hr' & Hle).
      assert (r' = r) as -> by congruence.
      split; [exact Hle|]. split.
      * split; [exact Hf|reflexivity].
      * intros [_ H]. congruence.
    + right. cbn in Hneg. pose proof Hneg as Hgt.
      apply Filter_gt_true in Hgt as (r' & Hr' & Hlt).
      assert (r' = r) as -> by congruence.
      split; [exact Hlt|]. split.
      * split; [exact Hf|exact Hneg].
      * intros [_ H]. discriminate.
Qed.

(** The split on three records with random numbers 1/2, 9/10 and the
    threshold itself: two go to train, one to test. *)
Example split_three :
  length (train values names exA exB exA exRoi exSample exRandom) = 2%nat /\
  length (test values names exA exB exA exRoi exSample exRandom) = 1%nat.
Proof. split; vm_compute; reflexivity. Qed.

(** ** The label of a class *)

Lemma List_get_nonneg {A} (l : list A) (i : Z) (a : A) :
  0 <= i -> l !! Z.to_nat i = Some a -> ee.List_get l i = Ok a.
Proof.
  intros Hi Ha. unfold ee.List_get.
  pose proof (lookup_lt_Some _ _ _ Ha) as Hlt.
  destruct (i <? 0) eqn:E; [apply Z.ltb_lt in E; lia|].
  replace ((0 <=? i) && (i <? Z.of_nat (length l)))%bool with true.
  - rewrite Ha. reflexivity.
  - symmetry. apply andb_true_iff. split; [apply Z.leb_le|apply Z.ltb_lt]; lia.
Qed.

Lemma List_get_negative {A} (l : list A) (i : Z) (a : A) :
  - Z.of_nat (length l) <= i < 0 ->
  l !! Z.to_nat (Z.of_nat (length l) + i) = Some a -> ee.List_get l i = Ok a.
Proof.
  intros Hi Ha. unfold ee.List_get.
  destruct (i <? 0) eqn:E; [|apply Z.ltb_ge in E; lia].
  replace ((0 <=? Z.of_nat (length l) + i) &&
           (Z.of_nat (length l) + i <? Z.of_nat (length l)))%bool with true.
  - rewrite Ha. reflexivity.
  - symmetry. apply andb_true_iff. split; [apply Z.leb_le|apply Z.ltb_lt]; lia.
Qed.

Lemma List_get_outside {A} (l : list A) (i : Z) :
  Z.of_nat (length l) <= i \/ i < - Z.of_nat (length l) ->
  ee.List_get l i = @Err A.
Proof.
  intros Hi. unfold ee.List_get.
  destruct (i <? 0) eqn:E.
  - apply Z.ltb_lt in E.
    replace (0 <=? Z.of_nat (length l) + i) with false; [reflexivity|].
    symmetry. apply Z.leb_gt. lia.
  - apply Z.ltb_ge in E.
    replace (i <? Z.of_nat (length l)) with false; [rewrite andb_false_r; reflexivity|].
    symmetry. apply Z.ltb_ge. lia.
Qed.

(** The label by position, in the three ranges of the class. *)
Lemma label_ranges (ns : list string) (c : Z) :
  (1 <= c <= Z.of_nat (length ns) ->
   exists n, ns !! Z.to_nat (c - 1) = Some n /\ label ns c = Ok n) /\
  (- Z.of_nat (length ns) < c <= 0 ->
   exists n, ns !! Z.to_nat (Z.of_nat (length ns) + c - 1) = Some n /\
             label ns c = Ok n) /\
  (Z.of_nat (length ns) < c \/ c <= - Z.of_nat (length ns) -> label ns c = Err).
Proof.
  unfold label. split; [|split].
  - intros Hc. destruct (lookup_lt_is_Some_2 ns (Z.to_nat (c - 1))) as [n Hn]; [lia|].
    exists n. split; [exact Hn|]. apply List_get_nonneg; [lia|exact Hn].
  - intros Hc.
    destruct (lookup_lt_is_Some_2 ns (Z.to_nat (Z.of_nat (length ns) + c - 1)))
      as [n Hn]; [lia|].
    exists n. split; [exact Hn|]. apply List_get_negative; [lia|].
    replace (Z.of_nat (length ns) + (c - 1)) with (Z.of_nat (length ns) + c - 1) by lia.
    exact Hn.
  - intros Hc. apply List_get_outside. lia.
Qed.

(** C10 as the script behaves: the label is read at position class - 1.
    For a class in 1..K this is the name listed for it.  For a class in
    -K+1..0 the position is negative and counts from the end of the list,
    so class 0 receives the last name.  For a class above K (or below
    -K+1) the position is outside the list and the lookup is an error. *)
Theorem C10_label_by_position (ns : list string) (c : Z) :
  (1 <= c <= Z.of_nat (length ns) ->
   exists n, ns !! Z.to_nat (c - 1) = Some n /\ label ns c = Ok n) /\
  (- Z.of_nat (length ns) < c <= 0 ->
   exists n, ns !! Z.to_nat (Z.of_nat (length ns) + c - 1) = Some n /\
             label ns c = Ok n) /\
  (Z.of_nat (length ns) < c \/ c <= - Z.of_nat (length ns) -> label ns c = Err).
Proof. exact (label_ranges ns c). Qed.

Lemma C10_witness :
  (exists n, names !! Z.to_nat (3 - 1) = Some n /\ label names 3 = Ok n) /\
  (exists n, names !! Z.to_nat (Z.of_nat (length names) + 0 - 1) = Some n /\
             label names 0 = Ok n) /\
  label names 7 = Err.
Proof.
  split; [|split].
  - apply (proj1 (C10_label_by_position names 3)). cbn. lia.
  - apply (proj1 (proj2 (C10_label_by_position names 0))). cbn. lia.
  - apply (proj2 (proj2 (C10_label_by_position names 7))). cbn. lia.
Defined.

(** Class 0 receives the name of class 6. *)
Example label_0 : label names 0 = Ok "Barren land"%string.
Proof. reflexivity. Qed.

(** With six names, the label of class 7 is an error, and so is the whole
    area collection when a raster holds class 7 inside the region. *)
Lemma C10_counterexample :
  label names 7 = Err /\
  lulcAreafeatures values names exA exB exA [(2, 0)] exArea exSample exRandom exForest
    = Err.
Proof. split; vm_compute; reflexivity. Qed.

Lemma C7_witness :
  exists r, (<["random"%string := 1 # 2]> ∅ : Feature) !! "random"%string = Some r /\
    (((r <= split)%Q /\
      (<["random"%string := 1 # 2]> ∅ : Feature)
        ∈ train values names exA exB exA exRoi exSample exRandom /\
      (<["random"%string := 1 # 2]> ∅ : Feature)
        ∉ test values names exA exB exA exRoi exSample exRandom) \/
     ((split < r)%Q /\
      (<["random"%string := 1 # 2]> ∅ : Feature)
        ∈ test values names exA exB exA exRoi exSample exRandom /\
      (<["random"%string := 1 # 2]> ∅ : Feature)
        ∉ train values names exA exB exA exRoi exSample exRandom)).
Proof.
  apply (proj2 (proj2 (C7_split_partition values names exA exB exA exRoi
                         exSample exRandom))).
  apply list_elem_of_here.
Defined.

(** ** Area per class and year *)

Lemma groupSum_fold_lookup (pixelArea : cell -> Q) (img : Image)
    (region : list cell) (m0 : gmap Z Q) (c : Z) :
  fold_left
    (fun m p =>
       match imageArea pixelArea p, img p with
       | Some a, Some c' => <[c' := (default 0%Q (m !! c') + a)%Q]> m
       | _, _ => m
       end)
    region m0 !! c =
  match m0 !! c, List.filter (fun p => bool_decide (img p = Some c)) region with
  | None, [] => None
  | o, ps => Some (fold_left Qplus (map (fun p => (pixelArea p / 10000)%Q) ps)
                     (default 0%Q o))
  end.
Proof.
  revert m0. induction region as [|p region IH]; intros m0.
  - cbn. destruct (m0 !! c); reflexivity.
  - cbn [fold_left List.filter]. rewrite IH. unfold imageArea at 1.
    destruct (img p) as [c'|] eqn:Ep.
    + destruct (decide (c' = c)) as [->|Hne].
      * rewrite lookup_insert_eq. rewrite bool_decide_eq_true_2 by reflexivity.
        cbn [map fold_left default].
        destruct (m0 !! c), (List.filter _ region); reflexivity.
      * rewrite lookup_insert_ne by exact Hne.
        rewrite bool_decide_eq_false_2 by congruence. reflexivity.
    + rewrite bool_decide_eq_false_2 by discriminate. reflexivity.
Qed.

(** The groups of the grouped sum: a class has a group exactly when some
    cell of the region holds it, and the group's area is the class area. *)
Lemma groupSum_lookup (pixelArea : cell -> Q) (img : Image)
    (region : list cell) (c : Z) (a : Q) :
  ee.groupSum (imageArea pixelArea) img region !! c = Some a <->
  (exists p, p ∈ region /\ img p = Some c) /\ a = classArea pixelArea img region c.
Proof.
  unfold ee.groupSum. rewrite groupSum_fold_lookup, lookup_empty. unfold classArea.
  destruct (List.filter (fun p => bool_decide (img p = Some c)) region) as [|q qs] eqn:E.
  - split; [discriminate|]. intros [(p & Hp & Hc) _]. exfalso.
    assert (p ∈ List.filter (fun p => bool_decide (img p = Some c)) region) as Hin.
    { apply elem_of_filter_bool. split; [exact Hp|]. apply bool_decide_eq_true_2, Hc. }
    rewrite E in Hin. apply elem_of_nil in Hin. exact Hin.
  - cbn [default]. split.
    + intros H. injection H as <-. split; [|reflexivity].
      assert (q ∈ List.filter (fun p => bool_decide (img p = Some c)) region) as Hin
        by (rewrite E; apply list_elem_of_here).
      apply elem_of_filter_bool in Hin as [Hq Hc]. exists q. split; [exact Hq|].
      apply bool_decide_eq_true_1 in Hc. exact Hc.
    + intros [_ ->]. reflexivity.
Qed.

Lemma mapR_ok {A B} (f : A -> result B) (g : A -> B) (l : list A) :
  (forall x, x ∈ l -> f x = Ok (g x)) -> mapR f l = Ok (map g l).
Proof.
  induction l as [|a l IH]; intros H; [reflexivity|].
  cbn [mapR map]. rewrite (H a) by apply list_elem_of_here. cbn [bind].
  rewrite IH; [reflexivity|]. intros x Hx. apply H, list_elem_of_further, Hx.
Qed.

Lemma features_epoch (K : nat) (ns : list string) (pixelArea : cell -> Q)
    (region : list cell) (dict : lulcEntry) :
  length ns = K ->
  (forall p c, p ∈ region -> image dict p = Some c -> c ∈ catalog K) ->
  exists fs, features ns region pixelArea dict = Ok fs /\
             epochRecords (catalog K) ns pixelArea region (year dict) (image dict) fs.
Proof.
  intros HK Hcodes.
  exists (map (areaRecord ns (year dict)) (reduceArea region pixelArea dict)).
  assert (forall g, g ∈ reduceArea region pixelArea dict ->
            (exists p, p ∈ region /\ image dict p = Some (fst g)) /\
            snd g = classArea pixelArea (image dict) region (fst g)) as Hg.
  { intros [c a] Hin. unfold reduceArea in Hin. apply elem_of_map_to_list in Hin.
    apply groupSum_lookup in Hin. exact Hin. }
  assert (forall p c, p ∈ region -> image dict p = Some c ->
            1 <= c <= Z.of_nat (length ns)) as Hrange.
  { intros p c Hp Hc. rewrite HK. apply elem_of_catalog. exact (Hcodes p c Hp Hc). }
  split; [|split].
  - unfold features. apply mapR_ok. intros [c a] Hin.
    destruct (Hg _ Hin) as [(p & Hp & Hc) _]. cbn [fst] in Hc.
    destruct (proj1 (label_ranges ns c) (Hrange p c Hp Hc)) as (n & Hn & Hl).
    unfold feature, areaRecord. cbn [fst snd]. rewrite Hl, Hn. reflexivity.
  - rewrite map_map. cbn [areaRecord AreaFeature.class].
    apply (NoDup_fst_map_to_list (ee.groupSum (imageArea pixelArea) (image dict) region)).
  - intros r. rewrite list_elem_of_fmap. split.
    + intros ([c a] & -> & Hin). destruct (Hg _ Hin) as [(p & Hp & Hc) Ha].
      cbn [fst snd] in Hc, Ha. pose proof (Hrange p c Hp Hc) as Hr.
      destruct (lookup_lt_is_Some_2 ns (Z.to_nat (c - 1))) as [n Hn]; [lia|].
      exists c, n, (Z.to_nat (c - 1)). split; [exists p; split; assumption|].
      split; [apply lookup_catalog; lia|]. split; [exact Hn|].
      unfold areaRecord. cbn [fst snd]. rewrite Hn, Ha. reflexivity.
    + intros (c & n & i & Hex & Hi & Hn & ->). apply lookup_catalog in Hi as [Hi ->].
      exists (Z.of_nat (S i), classArea pixelArea (image dict) region (Z.of_nat (S i))).
      split.
      * unfold areaRecord. cbn [fst snd].
        replace (Z.to_nat (Z.of_nat (S i) - 1)) with i by lia.
        rewrite Hn. reflexivity.
      * unfold reduceArea. apply elem_of_map_to_list, groupSum_lookup.
        split; [exact Hex|reflexivity].
Qed.

(** C8: the epochs are taken in the order 2014, 2024, 2033, and, every
    class held inside the region being a code of the catalog, the area
    collection is the records of 2014, then those of 2024, then those of
    2033, where the records of an epoch are one per class present in its
    raster, with the pixel areas of the class, each divided by 10000,
    summed, the epoch's year and the catalog name of the class. *)
Theorem C8_area_records (K : nat) (ns : list string)
    (l14 l24 srtm : Image) (roi : list cell) (pixelArea : cell -> Q)
    (sampler : Bands -> nat -> string -> Z -> list cell -> list Feature)
    (rnd : nat -> Q)
    (forest : nat -> list Feature -> string -> list string -> Bands -> Image) :
  length ns = K ->
  (forall dict p c,
     dict ∈ lulcList (catalog K) ns l14 l24 srtm roi sampler rnd forest ->
     p ∈ roi -> image dict p = Some c -> c ∈ catalog K) ->
  map year (lulcList (catalog K) ns l14 l24 srtm roi sampler rnd forest)
    = [2014; 2024; 2033] /\
  exists f14 f24 f33,
    lulcAreafeatures (catalog K) ns l14 l24 srtm roi pixelArea sampler rnd forest
      = Ok (f14 ++ f24 ++ f33) /\
    epochRecords (catalog K) ns pixelArea roi 2014 l14 f14 /\
    epochRecords (catalog K) ns pixelArea roi 2024 l24 f24 /\
    epochRecords (catalog K) ns pixelArea roi 2033
      (lulc2033 (catalog K) ns l14 l24 srtm roi sampler rnd forest) f33.
Proof.
  intros HK Hcodes. split; [reflexivity|].
  set (l33 := lulc2033 (catalog K) ns l14 l24 srtm roi sampler rnd forest) in *.
  destruct (features_epoch K ns pixelArea roi {| year := 2014; image := l14 |} HK)
    as (f14 & H14 & R14).
  { intros p c Hp Hc. apply (Hcodes {| year := 2014; image := l14 |} p c); try assumption.
    apply list_elem_of_here. }
  destruct (features_epoch K ns pixelArea roi {| year := 2024; image := l24 |} HK)
    as (f24 & H24 & R24).
  { intros p c Hp Hc. apply (Hcodes {| year := 2024; image := l24 |} p c); try assumption.
    apply list_elem_of_further, list_elem_of_here. }
  destruct (features_epoch K ns pixelArea roi {| year := 2033; image := l33 |} HK)
    as (f33 & H33 & R33).
  { intros p c Hp Hc. apply (Hcodes {| year := 2033; image := l33 |} p c); try assumption.
    apply list_elem_of_further, list_elem_of_further, list_elem_of_here. }
  exists f14, f24, f33. split; [|split; [exact R14|split; [exact R24|exact R33]]].
  unfold lulcAreafeatures, lulcList, lulcList0. cbn [app mapR].
  fold l33. rewrite H14, H24, H33. cbn [bind concat]. rewrite app_nil_r. reflexivity.
Qed.

Lemma exCodes_in_catalog :
  forall dict p c,
    dict ∈ lulcList (catalog 6) names exA exB exA exRoi exSample exRandom exForest ->
    p ∈ exRoi -> image dict p = Some c -> c ∈ catalog 6.
Proof.
  intros dict p c Hd Hp Hc. unfold lulcList, lulcList0 in Hd. cbn [app] in Hd.
  unfold exRoi in Hp. apply elem_of_catalog.
  repeat (apply elem_of_cons in Hd as [->|Hd]);
    try (apply elem_of_nil in Hd; contradiction);
    repeat (apply elem_of_cons in Hp as [->|Hp]);
    try (apply elem_of_nil in Hp; contradiction);
    vm_compute in Hc; injection Hc as <-; lia.
Qed.

Lemma C8_witness :
  map year (lulcList (catalog 6) names exA exB exA exRoi exSample exRandom exForest)
    = [2014; 2024; 2033] /\
  exists f14 f24 f33,
    lulcAreafeatures (catalog 6) names exA exB exA exRoi exArea exSample exRandom exForest
      = Ok (f14 ++ f24 ++ f33) /\
    epochRecords (catalog 6) names exArea exRoi 2014 exA f14 /\
    epochRecords (catalog 6) names exArea exRoi 2024 exB f24 /\
    epochRecords (catalog 6) names exArea exRoi 2033
      (lulc2033 (catalog 6) names exA exB exA exRoi exSample exRandom exForest) f33.
Proof.
  apply (C8_area_records 6 names exA exB exA exRoi exArea exSample exRandom exForest).
  - reflexivity.
  - exact exCodes_in_catalog.
Defined.

(** The collection on the example: per epoch, the classes present with
    their names; each class covers two pixels of 100 square metres. *)
Example areas_example :
  match lulcAreafeatures values names exA exB exA exRoi exArea exSample exRandom exForest with
  | Ok fs =>
      map (fun r => (AreaFeature.year r, AreaFeature.class r, AreaFeature.LULC r,
                     Qeq_bool (AreaFeature.area r) (2 # 100))) fs
  | Err => []
  end =
  [ (2014, 2, "Dense forest", true); (2014, 1, "Waterbody", true);
    (2024, 3, "Agriculture land", true); (2024, 1, "Waterbody", true);
    (2033, 3, "Agriculture land", true); (2033, 1, "Waterbody", true) ]%string.
Proof. vm_compute. reflexivity. Qed.

(** * Further properties of the script *)

(** ** The full change map *)

Lemma changeMap_closed (vs : list Z) (ns : list string) (from to : Image) (p : cell) :
  changeMap (changeLoop vs ns from to) p =
  Some match from p, to p with
       | Some a, Some b =>
           if bool_decide (a ∈ vs /\ b ∈ vs) then changeValue a b else 0
       | _, _ => 0
       end.
Proof.
  destruct (from p) as [a|] eqn:Ef; [destruct (to p) as [b|] eqn:Et|].
  - case_bool_decide as H.
    + destruct H as [Ha Hb]. apply changeMap_at_hit; assumption.
    + apply changeMap_at_miss. intros a' b' Ha' Hb' [H1 H2].
      apply H. split; congruence.
  - apply changeMap_at_miss. intros a' b' _ _ [_ H2]. congruence.
  - apply changeMap_at_miss. intros a' b' _ _ [H1 _]. congruence.
Qed.

(** X1: for codes on which line 44 is exact, before the self-mask the
    change map is unmasked at every cell, whatever the masks of the two
    rasters: it holds the encoding where both rasters hold a code listed in
    [values], and 0 everywhere else, also where a raster has no data. *)
Theorem X1_full_change_map_total (vs : list Z) (ns : list string)
    (from to : Image) (p : cell) :
  exactCodes vs ->
  (forall a b, from p = Some a -> to p = Some b -> a ∈ vs -> b ∈ vs ->
     changeMap (changeLoop vs ns from to) p = Some (changeValue a b)) /\
  (from p = None \/ to p = None ->
     changeMap (changeLoop vs ns from to) p = Some 0) /\
  (forall a b, from p = Some a -> to p = Some b -> ~ (a ∈ vs /\ b ∈ vs) ->
     changeMap (changeLoop vs ns from to) p = Some 0) /\
  changeMap (changeLoop vs ns from to) p <> None.
Proof.
  intros _. rewrite changeMap_closed. repeat split.
  - intros a b -> -> Ha Hb. rewrite bool_decide_eq_true_2 by (split; assumption).
    reflexivity.
  - intros [->| ->]; [reflexivity|]. destruct (from p); reflexivity.
  - intros a b -> -> H. rewrite bool_decide_eq_false_2 by exact H. reflexivity.
  - discriminate.
Qed.

Lemma exactCodes_values : exactCodes values.
Proof.
  intros v Hv. apply list_elem_of_In in Hv. cbn in Hv.
  change (2 ^ 46) with 70368744177664.
  destruct Hv as [<-|[<-|[<-|[<-|[<-|[<-|[]]]]]]]; cbn; lia.
Qed.

Lemma X1_witness :
  changeMap (changeLoop values names exA exB) (1, 0) = Some (changeValue 2 3) /\
  changeMap (changeLoop values names exA exB) (3, 0) = Some 0 /\
  changeMap (changeLoop values names exA exB) (2, 0) = Some 0.
Proof.
  pose proof (X1_full_change_map_total values names exA exB (1, 0) exactCodes_values) as H1.
  pose proof (X1_full_change_map_total values names exA exB (3, 0) exactCodes_values) as H3.
  pose proof (X1_full_change_map_total values names exA exB (2, 0) exactCodes_values) as H2.
  split; [|split].
  - apply (proj1 H1 2 3); try reflexivity; apply list_elem_of_In; cbn; tauto.
  - apply (proj1 (proj2 H3)). left. reflexivity.
  - apply (proj1 (proj2 (proj2 H2)) 7 7); try reflexivity.
    intros [H _]. exact (not_in_values_7 H).
Defined.

(** X2: the change map depends only on which codes are listed: two value
    lists with the same elements, in any order and with any repetitions,
    and any two name lists, give the same change map, before and after the
    self-mask. *)
Theorem X2_change_map_order_independent (vs vs' : list Z) (ns ns' : list string)
    (from to : Image) (p : cell) :
  (forall v, v ∈ vs <-> v ∈ vs') ->
  changeMap (changeLoop vs ns from to) p = changeMap (changeLoop vs' ns' from to) p /\
  changeMap' vs ns from to p = changeMap' vs' ns' from to p.
Proof.
  intros Hsame.
  assert (changeMap (changeLoop vs ns from to) p
          = changeMap (changeLoop vs' ns' from to) p) as Heq.
  { rewrite !changeMap_closed. destruct (from p) as [a|], (to p) as [b|]; try reflexivity.
    f_equal. apply (f_equal (fun c : bool => if c then changeValue a b else 0)).
    apply bool_decide_ext. rewrite !Hsame. reflexivity. }
  split; [exact Heq|]. unfold changeMap', loop, ee.selfMask. rewrite Heq. reflexivity.
Qed.

Lemma X2_witness :
  changeMap (changeLoop [1; 2; 3] names exA exB) (1, 0)
    = changeMap (changeLoop [3; 1; 2; 1] [] exA exB) (1, 0) /\
  changeMap' [1; 2; 3] names exA exB (1, 0) = changeMap' [3; 1; 2; 1] [] exA exB (1, 0).
Proof.
  apply (X2_change_map_order_independent [1; 2; 3] [3; 1; 2; 1] names [] exA exB (1, 0)).
  intros v. rewrite !list_elem_of_In. cbn. tauto.
Defined.

(** ** The parallel lists *)

Lemma lookup_entries {A} (l : list A) (i : nat) (x : A) :
  l !! i = Some x -> entries l !! i = Some (x, i).
Proof.
  intros Hx. assert ((x, i) ∈ entries l) as Hin by (apply elem_of_entries, Hx).
  apply list_elem_of_lookup in Hin as [n Hn].
  assert (snd <$> entries l !! n = Some i) as Hs by (rewrite Hn; reflexivity).
  rewrite <- list_lookup_fmap in Hs.
  change (fmap snd (entries l)) with (map snd (entries l)) in Hs.
  rewrite entries_snd in Hs. apply lookup_seq in Hs as [-> _]. exact Hn.
Qed.

(** X3: for codes on which line 44 is exact, the loop fills the two lists
    in row-major catalog order and keeps them aligned: for positions i and
    j of [values], element i * K + j of [changeValues] is
    values[i] * 100 + values[j] and element i * K + j of [changeNames] is
    the text of names[i], " -> ", the text of names[j], where a missing
    name reads "undefined". *)
Theorem X3_parallel_lists_row_major (vs : list Z) (ns : list string)
    (from to : Image) (i j : nat) (a b : Z) :
  exactCodes vs ->
  vs !! i = Some a -> vs !! j = Some b ->
  changeValues (changeLoop vs ns from to) !! (i * length vs + j)%nat
    = Some (a * 100 + b) /\
  changeNames (changeLoop vs ns from to) !! (i * length vs + j)%nat
    = Some (jsString (ns !! i) +:+ " -> " +:+ jsString (ns !! j))%string.
Proof.
  intros _ Ha Hb. rewrite changeLoop_pairs.
  destruct (pairStep_fold ns from to (list_prod (entries vs) (entries vs))
              {| changeValues := []; changeNames := []; changeMap := ee.constant 0 |})
    as (Hv & Hn & _).
  rewrite Hv, Hn. cbn [changeValues changeNames app].
  pose proof (lookup_list_prod (entries vs) (entries vs) i j (a, i) (b, j)
                (lookup_entries vs i a Ha) (lookup_entries vs j b Hb)) as Hp.
  rewrite length_entries in Hp.
  change (map ?f ?l) with (fmap f l). rewrite !list_lookup_fmap, Hp.
  split; reflexivity.
Qed.

Lemma X3_witness :
  changeValues (changeLoop values ["Waterbody"]%string exA exB) !! (0 * length values + 2)%nat
    = Some (1 * 100 + 3) /\
  changeNames (changeLoop values ["Waterbody"]%string exA exB) !! (0 * length values + 2)%nat
    = Some ("Waterbody" +:+ " -> " +:+ "undefined")%string.
Proof.
  apply (X3_parallel_lists_row_major values ["Waterbody"]%string exA exB 0 2 1 3
           exactCodes_values); reflexivity.
Defined.

(** ** The range of the transition band *)

(** X4: for the catalog of size K, every unmasked cell of the self-masked
    change map holds a number between 101 and 101 * K. *)
Theorem X4_transition_range (K : nat) (ns : list string)
    (from to : Image) (p : cell) (v : Z) :
  changeMap' (catalog K) ns from to p = Some v ->
  101 <= v <= 101 * Z.of_nat K.
Proof.
  unfold changeMap', loop, ee.selfMask. rewrite changeMap_closed.
  destruct (from p) as [a|], (to p) as [b|]; cbn; try discriminate.
  case_bool_decide as H; [|cbn; discriminate].
  destruct H as [Ha Hb]. apply elem_of_catalog in Ha, Hb.
  destruct (changeValue a b =? 0); [discriminate|].
  intros Hv. injection Hv as <-. unfold changeValue. lia.
Qed.

Lemma X4_witness : 101 <= 203 <= 101 * Z.of_nat 6.
Proof.
  apply (X4_transition_range 6 names exA exB (1, 0) 203). reflexivity.
Defined.

(** ** The keys of the change dictionary *)

Lemma fromLists_fold_is_Some (l : list (string * string)) (k : string) :
  is_Some (fold_left (fun m kv => <[fst kv := snd kv]> m) l
             (∅ : gmap string string) !! k) <->
  k ∈ map fst l.
Proof.
  split.
  - intros Hs. destruct (decide (k ∈ map fst l)) as [Hin|Hout]; [exact Hin|].
    rewrite (fromLists_fold_notin l ∅ k Hout), lookup_empty in Hs.
    destruct Hs as [x Hx]. discriminate.
  - intros Hin. apply fromLists_fold_present. right. exact Hin.
Qed.

(** X5: for codes on which line 44 and [String] are exact, the change
    dictionary has an entry exactly under the keys of the encodings of
    ordered pairs of listed values, and never more than K * K entries. *)
Theorem X5_changeDict_keys (vs : list Z) (ns : list string) (l14 l24 : Image) :
  exactCodes vs ->
  (forall k, is_Some (changeDict vs ns l14 l24 !! k) <->
             exists a b, a ∈ vs /\ b ∈ vs /\ k = String_ (changeValue a b)) /\
  (size (changeDict vs ns l14 l24) <= length vs * length vs)%nat.
Proof.
  intros _. rewrite changeDict_fold. split.
  - intros k. rewrite fromLists_fold_is_Some, map_map. cbn [fst].
    rewrite list_elem_of_fmap. split.
    + intros ([[a i] [b j]] & -> & Hin). cbn [fst snd].
      apply elem_of_entries_pairs in Hin as [Ha Hb]. cbn [fst snd] in Ha, Hb.
      exists a, b. split; [|split; [|reflexivity]].
      * apply list_elem_of_lookup. exists i. exact Ha.
      * apply list_elem_of_lookup. exists j. exact Hb.
    + intros (a & b & Ha & Hb & ->).
      apply list_elem_of_lookup in Ha as [i Hi]. apply list_elem_of_lookup in Hb as [j Hj].
      exists ((a, i), (b, j)). split; [reflexivity|].
      apply elem_of_entries_pairs. cbn [fst snd]. split; assumption.
  - pose proof (fromLists_fold_size_le
                  (map (fun pr : (Z * nat) * (Z * nat) =>
                          (String_ (changeValue (fst (fst pr)) (fst (snd pr))),
                           changeName ns (snd (fst pr)) (snd (snd pr))))
                       (list_prod (entries vs) (entries vs))) ∅) as H.
    rewrite map_size_empty, length_map, length_prod, length_entries in H. exact H.
Qed.

Lemma X5_witness :
  is_Some (changeDict values names exA exB !! String_ (changeValue 6 2)).
Proof.
  apply (proj1 (X5_changeDict_keys values names exA exB exactCodes_values)).
  exists 6, 2. repeat split; apply list_elem_of_In; cbn; tauto.
Defined.

(** ** What the transition band says about the other bands *)

Lemma changeValue_div_mod (K : nat) (a b : Z) :
  (K < 100)%nat -> a ∈ catalog K -> b ∈ catalog K ->
  changeValue a b / 100 = a /\ changeValue a b mod 100 = b /\ changeValue a b <> 0.
Proof.
  rewrite !elem_of_catalog. unfold changeValue. intros HK Ha Hb. split; [|split].
  - rewrite Z.div_add_l by lia. rewrite Z.div_small by lia. lia.
  - rewrite Z.add_comm, Z.mod_add by lia. apply Z.mod_small. lia.
  - lia.
Qed.

Lemma changeMap'_at_hit (vs : list Z) (ns : list string) (from to : Image)
    (p : cell) (a b : Z) :
  from p = Some a -> to p = Some b -> a ∈ vs -> b ∈ vs -> changeValue a b <> 0 ->
  changeMap' vs ns from to p = Some (changeValue a b).
Proof.
  intros Hf Ht Ha Hb Hnz. unfold changeMap', loop.
  rewrite (selfMask_at _ _ _ (changeMap_at_hit vs ns from to p a b Hf Ht Ha Hb)).
  destruct (changeValue a b =? 0) eqn:E; [|reflexivity].
  apply Z.eqb_eq in E. contradiction.
Qed.

(** X6: in the training feature image, for a catalog of size K < 100 and a
    cell whose two classes are catalog codes, the transition band determines
    the start band and the end band, the band the model is trained to
    predict: start is the quotient of transition by 100 and end is the
    remainder. *)
Theorem X6_transition_determines_start_and_end (K : nat) (ns : list string)
    (l14 l24 srtm : Image) (roi : list cell) (p : cell) (a b : Z) :
  (K < 100)%nat ->
  l14 p = Some a -> l24 p = Some b -> a ∈ catalog K -> b ∈ catalog K ->
  exists s e t v,
    bandOf "start" (variables (catalog K) ns l14 l24 srtm roi) = Some s /\
    bandOf predictName (variables (catalog K) ns l14 l24 srtm roi) = Some e /\
    bandOf "transition" (variables (catalog K) ns l14 l24 srtm roi) = Some t /\
    t p = Some v /\ s p = Some (v / 100) /\ e p = Some (v mod 100).
Proof.
  intros HK H14 H24 Ha Hb.
  destruct (changeValue_div_mod K a b HK Ha Hb) as (Hd & Hm & Hnz).
  exists l14, l24, (changeMap' (catalog K) ns l14 l24), (changeValue a b).
  repeat split.
  - apply changeMap'_at_hit; assumption.
  - rewrite Hd. exact H14.
  - rewrite Hm. exact H24.
Qed.

Lemma X6_witness :
  exists s e t v,
    bandOf "start" (variables (catalog 6) names exA exB exA exRoi) = Some s /\
    bandOf predictName (variables (catalog 6) names exA exB exA exRoi) = Some e /\
    bandOf "transition" (variables (catalog 6) names exA exB exA exRoi) = Some t /\
    t (1, 0) = Some v /\ s (1, 0) = Some (v / 100) /\ e (1, 0) = Some (v mod 100).
Proof.
  apply (X6_transition_determines_start_and_end 6 names exA exB exA exRoi (1, 0) 2 3);
    [lia | reflexivity | reflexivity | apply elem_of_catalog; lia
    | apply elem_of_catalog; lia].
Defined.

(** X7: the forecast feature image keeps the 2014-to-2024 transition band
    but starts from the 2024 raster, so there, under the same conditions,
    the start band is the remainder of transition by 100 (the training
    label), not the quotient as in the training image. *)
Theorem X7_forecast_start_is_remainder (K : nat) (ns : list string)
    (l14 l24 srtm : Image) (roi : list cell) (p : cell) (a b : Z) :
  (K < 100)%nat ->
  l14 p = Some a -> l24 p = Some b -> a ∈ catalog K -> b ∈ catalog K ->
  exists s t v,
    bandOf "start" (variables2025 (catalog K) ns l14 l24 srtm roi) = Some s /\
    bandOf "transition" (variables2025 (catalog K) ns l14 l24 srtm roi) = Some t /\
    bandOf "transition" (variables (catalog K) ns l14 l24 srtm roi) = Some t /\
    bandOf predictName (variables (catalog K) ns l14 l24 srtm roi) = Some s /\
    t p = Some v /\ s p = Some (v mod 100) /\
    (a <> b -> s p <> Some (v / 100)).
Proof.
  intros HK H14 H24 Ha Hb.
  destruct (changeValue_div_mod K a b HK Ha Hb) as (Hd & Hm & Hnz).
  exists l24, (changeMap' (catalog K) ns l14 l24), (changeValue a b).
  repeat split.
  - apply changeMap'_at_hit; assumption.
  - rewrite Hm. exact H24.
  - intros Hne. rewrite Hd, H24. congruence.
Qed.

Lemma X7_witness :
  exists s t v,
    bandOf "start" (variables2025 (catalog 6) names exA exB exA exRoi) = Some s /\
    bandOf "transition" (variables2025 (catalog 6) names exA exB exA exRoi) = Some t /\
    bandOf "transition" (variables (catalog 6) names exA exB exA exRoi) = Some t /\
    bandOf predictName (variables (catalog 6) names exA exB exA exRoi) = Some s /\
    t (1, 0) = Some v /\ s (1, 0) = Some (v mod 100) /\
    (2 <> 3 -> s (1, 0) <> Some (v / 100)).
Proof.
  apply (X7_forecast_start_is_remainder 6 names exA exB exA exRoi (1, 0) 2 3);
    [lia | reflexivity | reflexivity | apply elem_of_catalog; lia
    | apply elem_of_catalog; lia].
Defined.

(** X8: under the same conditions the year band of the training image is
    also a function of the transition band: it holds 0 where quotient and
    remainder of transition by 100 agree and 2024 where they differ. *)
Theorem X8_transition_determines_year (K : nat) (ns : list string)
    (l14 l24 srtm : Image) (roi : list cell) (p : cell) (a b : Z) :
  (K < 100)%nat ->
  l14 p = Some a -> l24 p = Some b -> a ∈ catalog K -> b ∈ catalog K ->
  exists y t v,
    bandOf "year" (variables (catalog K) ns l14 l24 srtm roi) = Some y /\
    bandOf "transition" (variables (catalog K) ns l14 l24 srtm roi) = Some t /\
    t p = Some v /\
    y p = Some (if v / 100 =? v mod 100 then 0 else 2024).
Proof.
  intros HK H14 H24 Ha Hb.
  destruct (changeValue_div_mod K a b HK Ha Hb) as (Hd & Hm & Hnz).
  eexists _, (changeMap' (catalog K) ns l14 l24), (changeValue a b).
  split; [reflexivity|]. split; [reflexivity|]. split.
  - apply changeMap'_at_hit; assumption.
  - rewrite Hd, Hm. unfold ee.multiply, ee.neq, ee.binary, ee.constant.
    rewrite H14, H24. destruct (a =? b); reflexivity.
Qed.

Lemma X8_witness :
  exists y t v,
    bandOf "year" (variables (catalog 6) names exA exB exA exRoi) = Some y /\
    bandOf "transition" (variables (catalog 6) names exA exB exA exRoi) = Some t /\
    t (1, 0) = Some v /\
    y (1, 0) = Some (if v / 100 =? v mod 100 then 0 else 2024).
Proof.
  apply (X8_transition_determines_year 6 names exA exB exA exRoi (1, 0) 2 3);
    [lia | reflexivity | reflexivity | apply elem_of_catalog; lia
    | apply elem_of_catalog; lia].
Defined.

(** ** The year band at cells without data, and in the forecast image *)

(** X9: the year band is masked, not zero, exactly at the cells where one
    of the two rasters has no data, and the forecast year band is the
    training year band with 2024 replaced by 2033: both mark the same
    cells. *)
Theorem X9_year_band_mask_and_reuse (vs : list Z) (ns : list string)
    (l14 l24 srtm : Image) (roi : list cell) :
  exists y24 y33,
    bandOf "year" (variables vs ns l14 l24 srtm roi) = Some y24 /\
    bandOf "year" (variables2025 vs ns l14 l24 srtm roi) = Some y33 /\
    forall p,
      (y24 p = None <-> l14 p = None \/ l24 p = None) /\
      y33 p = match y24 p with
              | Some v => Some (if v =? 0 then 0 else 2033)
              | None => None
              end.
Proof.
  eexists _, _. split; [reflexivity|]. split; [reflexivity|].
  intros p. unfold ee.multiply, ee.neq, ee.binary, ee.constant.
  destruct (l14 p) as [a|], (l24 p) as [b|]; cbn.
  - rewrite (Z.eqb_sym b a). split.
    + split; [discriminate|]. intros [H|H]; discriminate.
    + destruct (a =? b); reflexivity.
  - split; [|reflexivity]. split; [right; reflexivity|reflexivity].
  - split; [|reflexivity]. split; [left; reflexivity|reflexivity].
  - split; [|reflexivity]. split; [left; reflexivity|reflexivity].
Qed.

(** ** The bands the model reads *)

(** X10: every predictor named in [propNames] is a band of the training
    image and of the forecast image; the predicted property is a band of
    the training image only, and the band the sampler stratifies by is a
    band of the image it samples. *)
Theorem X10_predictors_are_bands (vs : list Z) (ns : list string)
    (l14 l24 srtm : Image) (roi : list cell) :
  (forall name, name ∈ propNames ->
     is_Some (bandOf name (variables vs ns l14 l24 srtm roi)) /\
     is_Some (bandOf name (variables2025 vs ns l14 l24 srtm roi))) /\
  is_Some (bandOf predictName (variables vs ns l14 l24 srtm roi)) /\
  bandOf predictName (variables2025 vs ns l14 l24 srtm roi) = None /\
  (predictName ∉ propNames) /\
  is_Some (bandOf "transition" (variables vs ns l14 l24 srtm roi)).
Proof.
  split; [|split; [|split; [|split]]].
  - intros name Hn. unfold propNames in Hn.
    repeat (apply elem_of_cons in Hn as [->|Hn]);
      try (apply elem_of_nil in Hn; contradiction);
      split; eexists; reflexivity.
  - eexists. reflexivity.
  - reflexivity.
  - intros H. apply list_elem_of_In in H. cbn in H. intuition discriminate.
  - eexists. reflexivity.
Qed.

Lemma X10_witness :
  is_Some (bandOf "elevation" (variables values names exA exB exA exRoi)) /\
  is_Some (bandOf "elevation" (variables2025 values names exA exB exA exRoi)).
Proof.
  apply (proj1 (X10_predictors_are_bands values names exA exB exA exRoi)).
  apply list_elem_of_In. cbn. tauto.
Defined.

(** ** The split as a rearrangement of the sample *)

Lemma filter_complement_perm {A} (f g : A -> bool) (l : list A) :
  (forall x, x ∈ l -> g x = negb (f x)) ->
  List.filter f l ++ List.filter g l ≡ₚ l.
Proof.
  induction l as [|a l IH]; intros H; [reflexivity|].
  cbn [List.filter]. rewrite (H a) by apply list_elem_of_here.
  assert (forall x, x ∈ l -> g x = negb (f x)) as H' by
    (intros x Hx; apply H, list_elem_of_further, Hx).
  specialize (IH H'). destruct (f a); cbn [negb].
  - cbn [app]. constructor. exact IH.
  - rewrite <- Permutation_middle. constructor. exact IH.
Qed.

Lemma filter_bool_sublist {A} (f : A -> bool) (l : list A) :
  sublist (List.filter f l) l.
Proof.
  induction l as [|a l IH]; [constructor|].
  cbn [List.filter]. destruct (f a); constructor; exact IH.
Qed.

(** X11: the split only rearranges the sample: train followed by test is a
    permutation of the sample (no record is lost or duplicated), and each
    partition lists its records in the order of the sample. *)
Theorem X11_split_is_permutation (vs : list Z) (ns : list string)
    (l14 l24 srtm : Image) (roi : list cell)
    (sampler : Bands -> nat -> string -> Z -> list cell -> list Feature)
    (rnd : nat -> Q) :
  train vs ns l14 l24 srtm roi sampler rnd ++ test vs ns l14 l24 srtm roi sampler rnd
    ≡ₚ sample vs ns l14 l24 srtm roi sampler rnd /\
  sublist (train vs ns l14 l24 srtm roi sampler rnd)
          (sample vs ns l14 l24 srtm roi sampler rnd) /\
  sublist (test vs ns l14 l24 srtm roi sampler rnd)
          (sample vs ns l14 l24 srtm roi sampler rnd).
Proof.
  split; [|split].
  - unfold train, test. apply filter_complement_perm.
    intros f Hf. apply Filter_gt_negb_lte. exact (randomColumn_random _ _ _ Hf).
  - apply filter_bool_sublist.
  - apply filter_bool_sublist.
Qed.

Lemma filter_all_true {A} (f : A -> bool) (l : list A) :
  (forall x, x ∈ l -> f x = true) -> List.filter f l = l.
Proof.
  induction l as [|a l IH]; intros H; [reflexivity|].
  cbn [List.filter]. rewrite (H a) by apply list_elem_of_here.
  f_equal. apply IH. intros x Hx. apply H, list_elem_of_further, Hx.
Qed.

Lemma filter_all_false {A} (f : A -> bool) (l : list A) :
  (forall x, x ∈ l -> f x = false) -> List.filter f l = [].
Proof.
  induction l as [|a l IH]; intros H; [reflexivity|].
  cbn [List.filter]. rewrite (H a) by apply list_elem_of_here.
  apply IH. intros x Hx. apply H, list_elem_of_further, Hx.
Qed.

(** X12: nothing guards against an empty partition: when every random
    number is at most 0.8 the test partition is empty and train is the
    whole sample, and when every random number exceeds 0.8 the train
    partition is empty and test is the whole sample. *)
Theorem X12_split_can_be_one_sided (vs : list Z) (ns : list string)
    (l14 l24 srtm : Image) (roi : list cell)
    (sampler : Bands -> nat -> string -> Z -> list cell -> list Feature)
    (rnd : nat -> Q) :
  ((forall i, (rnd i <= split)%Q) ->
   test vs ns l14 l24 srtm roi sampler rnd = [] /\
   train vs ns l14 l24 srtm roi sampler rnd = sample vs ns l14 l24 srtm roi sampler rnd) /\
  ((forall i, (split < rnd i)%Q) ->
   train vs ns l14 l24 srtm roi sampler rnd = [] /\
   test vs ns l14 l24 srtm roi sampler rnd = sample vs ns l14 l24 srtm roi sampler rnd).
Proof.
  assert (forall f, f ∈ sample vs ns l14 l24 srtm roi sampler rnd ->
            exists i, f !! "random"%string = Some (rnd i)) as Hr.
  { intros f Hf. unfold sample, randomColumn in Hf.
    apply elem_of_lookup_imap in Hf as (i & f0 & -> & _).
    exists i. apply lookup_insert_eq. }
  split; intros Hall.
  - assert (forall f, f ∈ sample vs ns l14 l24 srtm roi sampler rnd ->
              ee.Filter_lte "random" split f = true) as Hlte.
    { intros f Hf. destruct (Hr f Hf) as [i Hi]. apply Filter_lte_true.
      exists (rnd i). split; [exact Hi|apply Hall]. }
    split.
    + unfold test. apply filter_all_false. intros f Hf.
      rewrite Filter_gt_negb_lte by (destruct (Hr f Hf) as [i Hi]; eexists; exact Hi).
      rewrite (Hlte f Hf). reflexivity.
    + unfold train. apply filter_all_true. exact Hlte.
  - assert (forall f, f ∈ sample vs ns l14 l24 srtm roi sampler rnd ->
              ee.Filter_gt "random" split f = true) as Hgt.
    { intros f Hf. destruct (Hr f Hf) as [i Hi]. apply Filter_gt_true.
      exists (rnd i). split; [exact Hi|apply Hall]. }
    split.
    + unfold train. apply filter_all_false. intros f Hf.
      pose proof (Filter_gt_negb_lte "random" split f) as Hneg.
      rewrite (Hgt f Hf) in Hneg.
      destruct (ee.Filter_lte "random" split f); [|reflexivity].
      exfalso. assert (is_Some (f !! "random"%string)) as Hs
        by (destruct (Hr f Hf) as [i Hi]; eexists; exact Hi).
      specialize (Hneg Hs). discriminate.
    + unfold test. apply filter_all_true. exact Hgt.
Qed.

Lemma X12_witness :
  (test values names exA exB exA exRoi exSample (fun _ => 1 # 2) = [] /\
   train values names exA exB exA exRoi exSample (fun _ => 1 # 2)
     = sample values names exA exB exA exRoi exSample (fun _ => 1 # 2)) /\
  (train values names exA exB exA exRoi exSample (fun _ => 9 # 10) = [] /\
   test values names exA exB exA exRoi exSample (fun _ => 9 # 10)
     = sample values names exA exB exA exRoi exSample (fun _ => 9 # 10)).
Proof.
  split.
  - apply (proj1 (X12_split_can_be_one_sided values names exA exB exA exRoi exSample
                    (fun _ => 1 # 2))).
    intros _. unfold Qle, split. cbn. lia.
  - apply (proj2 (X12_split_can_be_one_sided values names exA exB exA exRoi exSample
                    (fun _ => 9 # 10))).
    intros _. unfold Qlt, split. cbn. lia.
Defined.

(** ** The label as a function of the class *)

(** X13: when the names are pairwise distinct, classes in 1..K receive
    pairwise distinct labels. *)
Theorem X13_label_injective (ns : list string) (c c' : Z) :
  NoDup ns ->
  1 <= c <= Z.of_nat (length ns) -> 1 <= c' <= Z.of_nat (length ns) ->
  label ns c = label ns c' -> c = c'.
Proof.
  intros Hnd Hc Hc' Heq.
  destruct (proj1 (label_ranges ns c) Hc) as (n & Hn & Hl).
  destruct (proj1 (label_ranges ns c') Hc') as (n' & Hn' & Hl').
  rewrite Hl, Hl' in Heq. injection Heq as <-.
  pose proof (NoDup_lookup ns _ _ n Hnd Hn Hn') as Hi. lia.
Qed.

Lemma NoDup_names : NoDup names.
Proof.
  unfold names. repeat (apply NoDup_cons; split;
    [intros H; apply list_elem_of_In in H; cbn in H; intuition discriminate|]).
  apply NoDup_nil. exact I.
Qed.

Lemma X13_witness : 2 = 2.
Proof.
  apply (X13_label_injective names 2 2 NoDup_names); [cbn; lia | cbn; lia | reflexivity].
Defined.

(** X14: a class in -K+1..0 receives, without an error, the label of the
    class K higher; in particular class 0 is labelled like class K. *)
Theorem X14_label_wraps (ns : list string) (c : Z) :
  (- Z.of_nat (length ns)) < c <= 0 ->
  exists n, label ns c = Ok n /\ label ns (c + Z.of_nat (length ns)) = Ok n.
Proof.
  intros Hc.
  destruct (proj1 (proj2 (label_ranges ns c)) Hc) as (n & Hn & Hl).
  exists n. split; [exact Hl|].
  destruct (proj1 (label_ranges ns (c + Z.of_nat (length ns)))) as (n' & Hn' & Hl'); [lia|].
  replace (c + Z.of_nat (length ns) - 1) with (Z.of_nat (length ns) + c - 1) in Hn' by lia.
  rewrite Hl'. congruence.
Qed.

Lemma X14_witness :
  exists n, label names 0 = Ok n /\ label names (0 + Z.of_nat (length names)) = Ok n.
Proof. apply (X14_label_wraps names 0). cbn. lia. Defined.

(** ** When the area collection is an error *)

Lemma mapR_Ok_inv {A B} (f : A -> result B) (l : list A) (ys : list B) :
  mapR f l = Ok ys -> forall x, x ∈ l -> exists y, f x = Ok y.
Proof.
  revert ys. induction l as [|a l IH]; intros ys H x Hx.
  - apply elem_of_nil in Hx. contradiction.
  - cbn [mapR] in H. destruct (f a) as [b|] eqn:Ea; [|discriminate].
    cbn [bind] in H. destruct (mapR f l) as [bs|] eqn:El; [|discriminate].
    apply elem_of_cons in Hx as [->|Hx].
    + exists b. exact Ea.
    + exact (IH bs eq_refl x Hx).
Qed.

Lemma mapR_all_Ok {A B} (f : A -> result B) (l : list A) :
  (forall x, x ∈ l -> exists y, f x = Ok y) -> exists ys, mapR f l = Ok ys.
Proof.
  induction l as [|a l IH]; intros H; [exists []; reflexivity|].
  destruct (H a (list_elem_of_here _ _)) as [b Hb].
  destruct IH as [bs Hbs]; [intros x Hx; apply H, list_elem_of_further, Hx|].
  exists (b :: bs). cbn [mapR]. rewrite Hb. cbn [bind]. rewrite Hbs. reflexivity.
Qed.

Lemma label_Ok_iff (ns : list string) (c : Z) :
  (exists n, label ns c = Ok n) <->
  (- Z.of_nat (length ns)) < c <= Z.of_nat (length ns).
Proof.
  split.
  - intros [n Hn].
    destruct (Z_lt_le_dec (Z.of_nat (length ns)) c) as [H1|H1].
    { rewrite (proj2 (proj2 (label_ranges ns c))) in Hn by (left; exact H1). discriminate. }
    destruct (Z_le_gt_dec c (- Z.of_nat (length ns))) as [H2|H2].
    { rewrite (proj2 (proj2 (label_ranges ns c))) in Hn by (right; exact H2). discriminate. }
    lia.
  - intros Hc. destruct (Z_le_gt_dec 1 c) as [H1|H1].
    + destruct (proj1 (label_ranges ns c)) as (n & _ & Hl); [lia|]. exists n. exact Hl.
    + destruct (proj1 (proj2 (label_ranges ns c))) as (n & _ & Hl); [lia|].
      exists n. exact Hl.
Qed.

Lemma features_Ok_iff (ns : list string) (pixelArea : cell -> Q)
    (region : list cell) (dict : lulcEntry) :
  (exists fs, features ns region pixelArea dict = Ok fs) <->
  (forall p c, p ∈ region -> image dict p = Some c ->
               (- Z.of_nat (length ns)) < c <= Z.of_nat (length ns)).
Proof.
  unfold features. split.
  - intros [fs Hfs] p c Hp Hc.
    assert ((c, classArea pixelArea (image dict) region c)
              ∈ reduceArea region pixelArea dict) as Hin.
    { unfold reduceArea. apply elem_of_map_to_list, groupSum_lookup.
      split; [exists p; split; assumption|reflexivity]. }
    destruct (mapR_Ok_inv _ _ _ Hfs _ Hin) as [y Hy].
    unfold feature in Hy. cbn [fst snd] in Hy.
    apply label_Ok_iff. destruct (label ns c) as [n|]; [exists n; reflexivity|discriminate].
  - intros Hcodes. apply mapR_all_Ok. intros [c a] Hin.
    unfold reduceArea in Hin. apply elem_of_map_to_list, groupSum_lookup in Hin.
    destruct Hin as [(p & Hp & Hc) _].
    destruct (proj2 (label_Ok_iff ns c) (Hcodes p c Hp Hc)) as [n Hn].
    unfold feature. cbn [fst snd]. rewrite Hn. cbn [bind]. eexists. reflexivity.
Qed.

(** X15: the area collection is delivered exactly when every class held
    inside the region by one of the three rasters lies in -K+1..K, K being
    the number of names; a single cell of a class outside that range, in
    any epoch, makes the whole collection an error. *)
Theorem X15_area_collection_ok_iff (vs : list Z) (ns : list string)
    (l14 l24 srtm : Image) (roi : list cell) (pixelArea : cell -> Q)
    (sampler : Bands -> nat -> string -> Z -> list cell -> list Feature)
    (rnd : nat -> Q)
    (forest : nat -> list Feature -> string -> list string -> Bands -> Image) :
  (exists fs, lulcAreafeatures vs ns l14 l24 srtm roi pixelArea sampler rnd forest = Ok fs)
  <->
  (forall dict p c,
     dict ∈ lulcList vs ns l14 l24 srtm roi sampler rnd forest ->
     p ∈ roi -> image dict p = Some c ->
     (- Z.of_nat (length ns)) < c <= Z.of_nat (length ns)).
Proof.
  unfold lulcAreafeatures. split.
  - intros [fs Hfs] dict p c Hd.
    destruct (mapR (features ns roi pixelArea)
                (lulcList vs ns l14 l24 srtm roi sampler rnd forest)) as [fss|] eqn:E;
      [|discriminate].
    destruct (mapR_Ok_inv _ _ _ E dict Hd) as [y Hy].
    apply (proj1 (features_Ok_iff ns pixelArea roi dict)). exists y. exact Hy.
  - intros Hcodes.
    destruct (mapR_all_Ok (features ns roi pixelArea)
                (lulcList vs ns l14 l24 srtm roi sampler rnd forest)) as [fss Hfss].
    { intros dict Hd. apply (proj2 (features_Ok_iff ns pixelArea roi dict)).
      intros p c. apply Hcodes. exact Hd. }
    rewrite Hfss. cbn [bind]. eexists. reflexivity.
Qed.

Lemma X15_witness :
  exists fs,
    lulcAreafeatures (catalog 6) names exA exB exA exRoi exArea exSample exRandom exForest
      = Ok fs.
Proof.
  apply (proj2 (X15_area_collection_ok_iff (catalog 6) names exA exB exA exRoi exArea
                  exSample exRandom exForest)).
  intros dict p c Hd Hp Hc. pose proof (exCodes_in_catalog dict p c Hd Hp Hc) as H.
  apply elem_of_catalog in H. cbn. lia.
Defined.

(** ** Regions without data *)

Lemma groupSum_no_data (w : cell -> option Q) (img : Image) (region : list cell) :
  (forall p, p ∈ region -> img p = None) -> ee.groupSum w img region = ∅.
Proof.
  unfold ee.groupSum. generalize (∅ : gmap Z Q).
  induction region as [|p region IH]; intros m H; [reflexivity|].
  cbn [fold_left]. rewrite (H p) by apply list_elem_of_here.
  destruct (w p) as [wp|]; apply IH; intros p' Hp'; apply H, list_elem_of_further, Hp'.
Qed.

(** X16: when no raster holds data inside the region, in particular when
    the region has no pixel, the area collection is delivered and is
    empty. *)
Theorem X16_no_data_no_records (vs : list Z) (ns : list string)
    (l14 l24 srtm : Image) (roi : list cell) (pixelArea : cell -> Q)
    (sampler : Bands -> nat -> string -> Z -> list cell -> list Feature)
    (rnd : nat -> Q)
    (forest : nat -> list Feature -> string -> list string -> Bands -> Image) :
  (forall dict p,
     dict ∈ lulcList vs ns l14 l24 srtm roi sampler rnd forest ->
     p ∈ roi -> image dict p = None) ->
  lulcAreafeatures vs ns l14 l24 srtm roi pixelArea sampler rnd forest = Ok [].
Proof.
  intros Hnone.
  assert (forall dict, dict ∈ lulcList vs ns l14 l24 srtm roi sampler rnd forest ->
            features ns roi pixelArea dict = Ok []) as Hf.
  { intros dict Hd. unfold features, reduceArea.
    rewrite groupSum_no_data by (intros p Hp; exact (Hnone dict p Hd Hp)).
    rewrite map_to_list_empty. reflexivity. }
  unfold lulcAreafeatures.
  rewrite (mapR_ok _ (fun _ => []) _ Hf). reflexivity.
Qed.

Lemma X16_witness :
  lulcAreafeatures values names exA exB exA [] exArea exSample exRandom exForest = Ok [].
Proof.
  apply (X16_no_data_no_records values names exA exB exA [] exArea exSample exRandom exForest).
  intros dict p _ Hp. apply elem_of_nil in Hp. contradiction.
Defined.

(** ** The areas of the groups add up *)

Lemma sumQ_perm (l l' : list Q) : l ≡ₚ l' -> (sumQ l == sumQ l')%Q.
Proof.
  induction 1 as [|x l l' _ IH|x y l|l l' l'' _ IH1 _ IH2]; cbn [sumQ fold_right].
  - reflexivity.
  - change (x + sumQ l == x + sumQ l')%Q. rewrite IH. reflexivity.
  - change (y + (x + sumQ l) == x + (y + sumQ l))%Q. ring.
  - rewrite IH1. exact IH2.
Qed.

Lemma groups_total_insert (m : gmap Z Q) (c : Z) (x : Q) :
  (sumQ (map snd (map_to_list (<[c := x]> m)))
   == x + sumQ (map snd (map_to_list (delete c m))))%Q.
Proof.
  rewrite <- (insert_delete_eq m c x).
  assert (map snd (map_to_list (<[c := x]> (delete c m)))
          ≡ₚ x :: map snd (map_to_list (delete c m))) as Hp.
  { change (map snd ?l) with (fmap snd l).
    rewrite (map_to_list_insert (delete c m) c x) by apply lookup_delete_eq.
    reflexivity. }
  rewrite (sumQ_perm _ _ Hp). reflexivity.
Qed.

Lemma groups_total_step (m : gmap Z Q) (c : Z) (a : Q) :
  (sumQ (map snd (map_to_list (<[c := (default 0%Q (m !! c) + a)%Q]> m)))
   == sumQ (map snd (map_to_list m)) + a)%Q.
Proof.
  rewrite groups_total_insert. destruct (m !! c) as [d|] eqn:E; cbn [default].
  - rewrite <- (insert_id m c d E) at 2. rewrite groups_total_insert.
    unfold id. ring.
  - rewrite (delete_id m c E). ring.
Qed.

Lemma groups_total_fold (pixelArea : cell -> Q) (img : Image)
    (region : list cell) (m0 : gmap Z Q) :
  (sumQ (map snd (map_to_list
     (fold_left
        (fun m p =>
           match imageArea pixelArea p, img p with
           | Some a, Some c' => <[c' := (default 0%Q (m !! c') + a)%Q]> m
           | _, _ => m
           end)
        region m0)))
   == sumQ (map snd (map_to_list m0))
      + sumQ (map (fun p => (pixelArea p / 10000)%Q)
                  (List.filter (fun p => match img p with Some _ => true | None => false end)
                               region)))%Q.
Proof.
  revert m0. induction region as [|p region IH]; intros m0.
  - cbn. ring.
  - cbn [fold_left List.filter]. rewrite IH. unfold imageArea at 1.
    destruct (img p) as [c|].
    + rewrite groups_total_step. cbn [map sumQ fold_right].
      change (fold_right Qplus 0%Q ?l) with (sumQ l). ring.
    + reflexivity.
Qed.

(** X17: for each raster the areas of its groups add up to the area, in
    hectares, of the cells of the region where the raster holds data:
    grouping by class neither loses nor double-counts a pixel, and cells
    without data are left out. *)
Theorem X17_group_areas_add_up (roi : list cell) (pixelArea : cell -> Q)
    (dict : lulcEntry) :
  (sumQ (map snd (reduceArea roi pixelArea dict))
   == sumQ (map (fun p => (pixelArea p / 10000)%Q)
                (List.filter
                   (fun p => match image dict p with Some _ => true | None => false end)
                   roi)))%Q.
Proof.
  unfold reduceArea, ee.groupSum. rewrite groups_total_fold.
  rewrite map_to_list_empty. cbn [map sumQ fold_right]. ring.
Qed.

(** The example region holds four pixels of 100 square metres with data in
    the first raster: 4/100 hectare. *)
Example group_areas_example :
  Qeq_bool (sumQ (map snd (reduceArea exRoi exArea {| year := 2014; image := exA |})))
           (4 # 100) = true.
Proof. vm_compute. reflexivity. Qed.

(** ** The legend *)

(** X18: the legend has one row per palette colour, whatever the lengths of
    the other two arrays.  When the three arrays have the same length the
    rows list the colours, the values and the names in order; a row whose
    position is past the end of [values] has no value label. *)
Theorem X18_legend_rows (pal : list string) (vs : list Z) (ns : list string) :
  length (legend pal vs ns) = length pal /\
  (length pal = length vs -> length pal = length ns ->
   map backgroundColor (legend pal vs ns) = pal /\
   map valueLabel (legend pal vs ns) = map Some vs /\
   map nameLabel (legend pal vs ns) = map Some ns) /\
  (forall i c, pal !! i = Some c -> (length vs <= i)%nat ->
   legend pal vs ns !! i
     = Some {| backgroundColor := c; valueLabel := None; nameLabel := ns !! i |}).
Proof.
  unfold legend. split; [apply length_imap|]. split.
  - intros Hv Hn. repeat split; apply list_eq; intros i;
      change (map ?f ?l) with (fmap f l);
      rewrite !list_lookup_fmap, list_lookup_imap;
      destruct (pal !! i) as [c|] eqn:E; cbn.
    + reflexivity.
    + reflexivity.
    + destruct (lookup_lt_is_Some_2 vs i) as [v Hvi];
        [rewrite <- Hv; exact (lookup_lt_Some _ _ _ E)|].
      rewrite Hvi. reflexivity.
    + rewrite (lookup_ge_None_2 vs i); [reflexivity|].
      rewrite <- Hv. apply lookup_ge_None_1, E.
    + destruct (lookup_lt_is_Some_2 ns i) as [n Hni];
        [rewrite <- Hn; exact (lookup_lt_Some _ _ _ E)|].
      rewrite Hni. reflexivity.
    + rewrite (lookup_ge_None_2 ns i); [reflexivity|].
      rewrite <- Hn. apply lookup_ge_None_1, E.
  - intros i c Hc Hi. rewrite list_lookup_imap, Hc. cbn.
    rewrite (lookup_ge_None_2 vs i Hi). reflexivity.
Qed.

Lemma X18_witness :
  (map backgroundColor (legend palette values names) = palette /\
   map valueLabel (legend palette values names) = map Some values /\
   map nameLabel (legend palette values names) = map Some names) /\
  legend palette [1; 2] names !! 2%nat
    = Some {| backgroundColor := "FFFF00"%string; valueLabel := None;
              nameLabel := names !! 2%nat |}.
Proof.
  split.
  - apply (proj1 (proj2 (X18_legend_rows palette values names))); reflexivity.
  - apply (proj2 (proj2 (X18_legend_rows palette [1; 2] names)) 2%nat "FFFF00"%string);
      [reflexivity | cbn; lia].
Defined.

(** ** Raster values and dictionary entries *)

Lemma changeDict_lookup_pair (K : nat) (ns : list string) (l14 l24 : Image) (a b : Z) :
  (K <= 100)%nat -> a ∈ catalog K -> b ∈ catalog K ->
  changeDict (catalog K) ns l14 l24 !! String_ (changeValue a b)
    = Some (changeName ns (Z.to_nat (a - 1)) (Z.to_nat (b - 1))).
Proof.
  intros HK Ha Hb. rewrite changeDict_fold.
  apply fromLists_fold_lookup; [apply NoDup_change_keys, HK|].
  apply list_elem_of_fmap.
  exists ((a, Z.to_nat (a - 1)), (b, Z.to_nat (b - 1))). cbn [fst snd].
  split; [reflexivity|].
  apply elem_of_catalog in Ha, Hb. apply elem_of_entries_pairs. cbn [fst snd].
  split; apply lookup_catalog; lia.
Qed.

(** X19: for a catalog of size K <= 100, the dictionary explains every
    value of the transition band: at an unmasked cell the key of the cell's
    value has an entry, and the entry is the text of the name of the cell's
    2014 class, " -> ", the text of the name of its 2024 class. *)
Theorem X19_band_values_have_entries (K : nat) (ns : list string)
    (l14 l24 : Image) (p : cell) (v : Z) :
  (K <= 100)%nat ->
  changeMap' (catalog K) ns l14 l24 p = Some v ->
  exists a b,
    l14 p = Some a /\ l24 p = Some b /\
    changeDict (catalog K) ns l14 l24 !! String_ v
      = Some (jsString (ns !! Z.to_nat (a - 1)) +:+ " -> "
              +:+ jsString (ns !! Z.to_nat (b - 1)))%string.
Proof.
  intros HK. unfold changeMap', loop, ee.selfMask. rewrite changeMap_closed.
  destruct (l14 p) as [a|], (l24 p) as [b|]; cbn; try discriminate.
  case_bool_decide as H; [|cbn; discriminate].
  destruct H as [Ha Hb]. destruct (changeValue a b =? 0); [discriminate|].
  intros Hv. injection Hv as <-. exists a, b. split; [reflexivity|]. split; [reflexivity|].
  exact (changeDict_lookup_pair K ns l14 l24 a b HK Ha Hb).
Qed.

Lemma X19_witness :
  exists a b,
    exA (1, 0) = Some a /\ exB (1, 0) = Some b /\
    changeDict (catalog 6) names exA exB !! String_ 203
      = Some (jsString (names !! Z.to_nat (a - 1)) +:+ " -> "
              +:+ jsString (names !! Z.to_nat (b - 1)))%string.
Proof.
  apply (X19_band_values_have_entries 6 names exA exB (1, 0) 203); [lia|reflexivity].
Defined.

(** ** Positive areas *)

Lemma fold_left_Qplus_pos (l : list Q) (s : Q) :
  (forall x, x ∈ l -> (0 < x)%Q) -> (0 < s)%Q -> (0 < fold_left Qplus l s)%Q.
Proof.
  revert s. induction l as [|x l IH]; intros s Hl Hs; [exact Hs|].
  cbn [fold_left]. apply IH.
  - intros y Hy. apply Hl, list_elem_of_further, Hy.
  - apply (Qplus_lt_le_compat 0 s 0 x Hs). apply Qlt_le_weak, Hl, list_elem_of_here.
Qed.

(** X20: when every pixel of the region has a positive area, every group
    of the grouped sum has a positive area, and its class is held by some
    cell of the region: a class absent from the region gets no group. *)
Theorem X20_groups_positive (roi : list cell) (pixelArea : cell -> Q)
    (dict : lulcEntry) (c : Z) (a : Q) :
  (forall p, p ∈ roi -> (0 < pixelArea p)%Q) ->
  (c, a) ∈ reduceArea roi pixelArea dict ->
  (0 < a)%Q /\ exists p, p ∈ roi /\ image dict p = Some c.
Proof.
  intros Hpos Hin. unfold reduceArea in Hin.
  apply elem_of_map_to_list, groupSum_lookup in Hin as [Hex ->].
  split; [|exact Hex]. unfold classArea.
  assert (forall x, x ∈ map (fun p => (pixelArea p / 10000)%Q)
                      (List.filter (fun p => bool_decide (image dict p = Some c)) roi) ->
                    (0 < x)%Q) as Hall.
  { intros x Hx. apply list_elem_of_fmap in Hx as (p & -> & Hp).
    apply elem_of_filter_bool in Hp as [Hp _].
    unfold Qdiv. apply Qmult_lt_0_compat; [exact (Hpos p Hp)|reflexivity]. }
  destruct Hex as (p & Hp & Hc).
  assert (p ∈ List.filter (fun p => bool_decide (image dict p = Some c)) roi) as Hpf.
  { apply elem_of_filter_bool. split; [exact Hp|]. apply bool_decide_eq_true_2, Hc. }
  destruct (List.filter (fun p => bool_decide (image dict p = Some c)) roi) as [|q qs].
  - apply elem_of_nil in Hpf. contradiction.
  - cbn [map fold_left]. apply fold_left_Qplus_pos.
    + intros x Hx. apply Hall. cbn [map]. apply list_elem_of_further, Hx.
    + rewrite Qplus_0_l. apply Hall. cbn [map]. apply list_elem_of_here.
Qed.

Lemma exGroup_1 :
  (1, classArea exArea exA exRoi 1)
    ∈ reduceArea exRoi exArea {| year := 2014; image := exA |}.
Proof.
  unfold reduceArea. apply elem_of_map_to_list, groupSum_lookup.
  split; [|reflexivity]. exists (0, 0). split; [apply list_elem_of_here|reflexivity].
Qed.

Lemma X20_witness :
  (0 < classArea exArea exA exRoi 1)%Q /\
  exists p, p ∈ exRoi /\ image {| year := 2014; image := exA |} p = Some 1.
Proof.
  apply (X20_groups_positive exRoi exArea {| year := 2014; image := exA |} 1
           (classArea exArea exA exRoi 1)).
  - intros p _. reflexivity.
  - exact exGroup_1.
Defined.
